(** * steamgrid: artwork resolution, image cache and overlay pipeline

    A shallow embedding of [steamgrid.go].  Go strings and byte slices are
    byte strings ([string]); the file system is a finite map from paths to
    nodes; every system call the program makes (stat, read, write, HTTP
    GET, channel send) is recorded in a chronological trace, so that
    statements about which calls happen, and in which order, can be made.

    The Go standard library is not part of the repository.  Pure string
    helpers are written out; the network, the regular-expression engine
    and the image codecs are taken as the fields of two interfaces
    ([Network], [Imaging]). *)

From Stdlib Require Import ZArith String Ascii List DecimalString.
From stdpp Require Import base strings gmap list.

(** ** Go's [strings] and [path/filepath] helpers *)

(** [unicode.ToLower] restricted to one byte: 'A'..'Z' move to 'a'..'z',
    every other byte stays.  On ASCII text this is Go's [strings.ToLower];
    bytes of multi-byte runes are left alone. *)
Definition toLowerByte (c : ascii) : ascii :=
  let n := nat_of_ascii c in
  if (65 <=? n)%nat && (n <=? 90)%nat then ascii_of_nat (n + 32) else c.

Fixpoint strings_ToLower (s : string) : string :=
  match s with
  | EmptyString => EmptyString
  | String c r => String (toLowerByte c) (strings_ToLower r)
  end.

(** Is byte [c] one of the bytes of [cutset]? *)
Fixpoint inCutset (c : ascii) (cutset : string) : bool :=
  match cutset with
  | EmptyString => false
  | String d r => Ascii.eqb c d || inCutset c r
  end.

(** [strings.TrimRight(s, cutset)]: [s] without its longest suffix made
    only of bytes of [cutset]. *)
Fixpoint strings_TrimRight (s cutset : string) : string :=
  match s with
  | EmptyString => EmptyString
  | String c r =>
      match strings_TrimRight r cutset with
      | EmptyString => if inCutset c cutset then EmptyString else String c EmptyString
      | t => String c t
      end
  end.

(** [strings.HasSuffix] and [strings.TrimSuffix]: at most one copy of
    [suffix] is removed. *)
Definition strings_HasSuffix (s suffix : string) : bool :=
  String.eqb (String.substring (String.length s - String.length suffix)
                               (String.length suffix) s) suffix
  && (String.length suffix <=? String.length s)%nat.

Definition strings_TrimSuffix (s suffix : string) : string :=
  if strings_HasSuffix s suffix
  then String.substring 0 (String.length s - String.length suffix) s
  else s.

(** Does the string contain a path separator? *)
Fixpoint hasSeparator (s : string) : bool :=
  match s with
  | EmptyString => false
  | String c r => Ascii.eqb c "/" || hasSeparator r
  end.

(** [filepath.Ext(path)]: the suffix starting at the last dot of the last
    path element, empty when that element has no dot. *)
Fixpoint filepath_Ext (path : string) : string :=
  match path with
  | EmptyString => EmptyString
  | String c r =>
      if hasSeparator r then filepath_Ext r
      else match filepath_Ext r with
           | EmptyString => if Ascii.eqb c "." then path else EmptyString
           | e => e
           end
  end.

(** [filepath.Join] on the paths the program builds (a clean directory
    and a file name): the elements separated by a slash. *)
Definition filepath_Join (dir name : string) : string :=
  dir +:+ "/" +:+ name.

(** [%v] of a non-negative integer. *)
Definition itoa (n : nat) : string :=
  NilEmpty.string_of_uint (Nat.to_uint n).

(** [strings.Contains]. *)
Fixpoint hasPrefix (s p : string) : bool :=
  match p, s with
  | EmptyString, _ => true
  | String a p', String b s' => Ascii.eqb a b && hasPrefix s' p'
  | String _ _, EmptyString => false
  end.

Fixpoint strings_Contains (s sub : string) : bool :=
  hasPrefix s sub ||
  match s with
  | EmptyString => false
  | String _ r => strings_Contains r sub
  end.

(** ** Errors, HTTP responses and the outside world *)

(** A Go [error] is its message; [None] is the nil error. *)
Definition error := string.

(** What the program reads of an [*http.Response]: the status code, the
    status line, and what [ioutil.ReadAll] gives on the body (the bytes
    read, and the read error if the transfer breaks). *)
Record Response := mkResponse {
  StatusCode : Z;
  Status : string;
  Body : string;
  BodyErr : option error
}.

(** [http.Get] either fails before any response (DNS, connect, timeout,
    malformed URL) or hands back a response. *)
Inductive GetResult :=
  | GetErr (e : error)
  | GetOk (r : Response).

Class Network := {
  (** the server's answer to a GET of the URL *)
  http_Get : string -> GetResult;
  (** [url.QueryEscape] *)
  url_QueryEscape : string -> string;
  (** [FindStringSubmatch] of the search-result pattern: the leftmost
      match and its one group, or nothing *)
  searchPattern_FindStringSubmatch : string -> option (string * string)
}.

(** A node of the file system: a regular file with its bytes, or a
    directory, which can be stat'ed and listed (its entries are the file
    names [ioutil.ReadDir] returns, in that order) but neither read nor
    written as a file. *)
Inductive Node :=
  | File (data : string)
  | Directory (entries : list string).

Inductive Event :=
  | EvStat (path : string)
  | EvReadFile (path : string)
  | EvWriteFile (path : string) (data : string)
  | EvReadDir (path : string)
  | EvGet (url : string)
  | EvDescription (text : string)
  | EvProgress (percent : nat).

Record Sys := mkSys {
  fs : gmap string Node;
  trace : list Event
}.

(** ** A state monad for the calls that touch the system *)

Definition IO (A : Type) : Type := Sys -> A * Sys.

Definition ret {A} (a : A) : IO A := fun s => (a, s).

Definition bind {A B} (m : IO A) (k : A -> IO B) : IO B :=
  fun s => let (a, s') := m s in k a s'.

#[export] Instance IO_ret : MRet IO := @ret.
#[export] Instance IO_bind : MBind IO := fun A B k m => bind m k.

Definition emit (e : Event) : IO unit :=
  fun s => (tt, mkSys (fs s) (trace s ++ [e])).

Definition getFs : IO (gmap string Node) := fun s => (fs s, s).

Definition putFs (m : gmap string Node) : IO unit :=
  fun s => (tt, mkSys m (trace s)).

(** [os.Stat]: only the error is looked at by the program. *)
Definition os_Stat (path : string) : IO (option error) :=
  _ ← emit (EvStat path);
  m ← getFs;
  match m !! path with
  | Some _ => ret None
  | None => ret (Some ("stat " +:+ path +:+ ": no such file or directory"))
  end.

(** [ioutil.ReadFile]: the bytes ([None] is the nil slice) and the error. *)
Definition ioutil_ReadFile (path : string) : IO (option string * option error) :=
  _ ← emit (EvReadFile path);
  m ← getFs;
  match m !! path with
  | Some (File data) => ret (Some data, None)
  | Some (Directory _) => ret (None, Some ("read " +:+ path +:+ ": is a directory"))
  | None => ret (None, Some ("open " +:+ path +:+ ": no such file or directory"))
  end.

(** [ioutil.WriteFile]: creates or truncates the file, fails on a
    directory. *)
Definition ioutil_WriteFile (path : string) (data : string) : IO (option error) :=
  _ ← emit (EvWriteFile path data);
  m ← getFs;
  match m !! path with
  | Some (Directory _) => ret (Some ("open " +:+ path +:+ ": is a directory"))
  | _ => _ ← putFs (<[path := File data]> m); ret None
  end.

(** [ioutil.ReadDir]: the names of the entries of a directory. *)
Definition ioutil_ReadDir (path : string) : IO (list string * option error) :=
  _ ← emit (EvReadDir path);
  m ← getFs;
  match m !! path with
  | Some (Directory entries) => ret (entries, None)
  | Some (File _) => ret ([], Some ("readdirent " +:+ path +:+ ": not a directory"))
  | None => ret ([], Some ("open " +:+ path +:+ ": no such file or directory"))
  end.

Definition isNil {A} (o : option A) : bool :=
  match o with None => true | Some _ => false end.

(** ** The artwork source resolver *)

(** A Steam game in a library.  [ImageBytes] is a slice: [None] is nil. *)
Record Game := mkGame {
  Id : string;
  Name : string;
  Tags : list string;
  ImagePath : string;
  ImageBytes : option string
}.

(** User in the local steam installation. *)
Record User := mkUser {
  User_Name : string;
  User_SteamId32 : string;
  User_SteamId64 : string;
  User_Dir : string
}.

(** Assignments through the [*Game] pointer. *)
Definition setImagePath (game : Game) (path : string) : Game :=
  mkGame (Id game) (Name game) (Tags game) path (ImageBytes game).

Definition setImageBytes (game : Game) (b : option string) : Game :=
  mkGame (Id game) (Name game) (Tags game) (ImagePath game) b.

(** The bytes of a slice; a nil slice has none. *)
Definition sliceBytes (b : option string) : string :=
  match b with Some data => data | None => "" end.

Section Resolver.
Context `{Network}.

Definition httpGet (url : string) : IO GetResult :=
  _ ← emit (EvGet url); ret (http_Get url).

Definition googleSearchFormat : string :=
  "https://ajax.googleapis.com/ajax/services/search/images?v=1.0&rsz=8&q=".

(** [getGoogleImage]: the first grid image URL of a search for the name. *)
Definition getGoogleImage (gameName : string) : IO (string * option error) :=
  if String.eqb gameName "" then ret ("", None)
  else
    let url := googleSearchFormat +:+ url_QueryEscape ("steam grid OR header" +:+ gameName) in
    r ← httpGet url;
    match r with
    | GetErr e => ret ("", Some e)
    | GetOk response =>
        match BodyErr response with
        | Some e => ret ("", Some e)
        | None =>
            match searchPattern_FindStringSubmatch (Body response) with
            | Some (_, group1) => ret (group1, None)
            | None => ret ("", None)
            end
        end
    end.

(** [tryDownload]: the response only if it was positive. *)
Definition tryDownload (url : string) : IO (option Response * option error) :=
  r ← httpGet url;
  match r with
  | GetErr e => ret (None, Some e)
  | GetOk response =>
      if (StatusCode response =? 404)%Z then ret (None, None)
      else if (StatusCode response >? 400)%Z then
        ret (None, Some ("Failed to download image " +:+ url +:+ ": " +:+ Status response))
      else ret (Some response, None)
  end.

Definition akamaiUrl (id : string) : string :=
  "https://steamcdn-a.akamaihd.net/steam/apps/" +:+ id +:+ "/header.jpg".

Definition steamCdnUrl (id : string) : string :=
  "http://cdn.steampowered.com/v/gfx/apps/" +:+ id +:+ "/header.jpg".

(** [getImageAlternatives]: the three sources in turn.  The three values
    are the named results [response], [fromSearch] and [err] at the
    [return] that is taken. *)
Definition getImageAlternatives (game : Game)
  : IO (option Response * bool * option error) :=
  '(response, err) ← tryDownload (akamaiUrl (Id game));
  if isNil err && negb (isNil response) then ret (response, false, err)
  else
    '(response, err) ← tryDownload (steamCdnUrl (Id game));
    if isNil err && negb (isNil response) then ret (response, false, err)
    else
      let fromSearch := true in
      '(url, err) ← getGoogleImage (Name game);
      if negb (isNil err) then ret (response, fromSearch, err)
      else
        '(response, err) ← tryDownload url;
        if isNil err && negb (isNil response) then ret (response, fromSearch, err)
        else ret (None, false, None).

(** ** The image cache *)

Definition gridDirOf (user : User) : string :=
  filepath_Join (filepath_Join (User_Dir user) "config") "grid".

Definition workingPath (game : Game) (user : User) : string :=
  filepath_Join (gridDirOf user) (Id game +:+ ".jpg").

Definition backupPath (game : Game) (user : User) : string :=
  filepath_Join (gridDirOf user) (Id game +:+ " (original).jpg").

(** [DownloadImage]: the game as the pointer leaves it, and the results
    [found], [fromSearch], [err]. *)
Definition DownloadImage (game : Game) (user : User)
  : IO (Game * (bool * bool * option error)) :=
  let filename := workingPath game user in
  let backupFilename := backupPath game user in
  let game := setImagePath game filename in
  err ← os_Stat backupFilename;
  if isNil err then
    '(imageBytes, err) ← ioutil_ReadFile backupFilename;
    ret (setImageBytes game imageBytes, (true, false, err))
  else
    err ← os_Stat filename;
    if isNil err then
      '(imageBytes, err) ← ioutil_ReadFile filename;
      if negb (isNil err) then ret (game, (true, false, err))
      else
        let game := setImageBytes game imageBytes in
        err ← ioutil_WriteFile backupFilename (sliceBytes (ImageBytes game));
        ret (game, (true, false, err))
    else
      '(response, fromSearch, err) ← getImageAlternatives game;
      match response with
      | None => ret (game, (false, false, err))
      | Some resp =>
          if negb (isNil err) then ret (game, (false, false, err))
          else
            let game := setImageBytes game (Some (Body resp)) in
            err ← ioutil_WriteFile filename (sliceBytes (ImageBytes game));
            if negb (isNil err) then ret (game, (true, false, err))
            else
              err ← ioutil_WriteFile backupFilename (sliceBytes (ImageBytes game));
              ret (game, (true, fromSearch, err))
      end.

End Resolver.

(** ** Go's [image] geometry *)

Record Point := mkPoint { X : Z; Y : Z }.

Record Rectangle := mkRect { Min : Point; Max : Point }.

(** [image.ZP] *)
Definition ZP : Point := mkPoint 0 0.

Definition Rectangle_Empty (r : Rectangle) : bool :=
  (X (Min r) >=? X (Max r))%Z || (Y (Min r) >=? Y (Max r))%Z.

(** [Rectangle.Union]: the smallest rectangle holding both. *)
Definition Rectangle_Union (r s : Rectangle) : Rectangle :=
  if Rectangle_Empty r then s
  else if Rectangle_Empty s then r
  else mkRect (mkPoint (Z.min (X (Min r)) (X (Min s))) (Z.min (Y (Min r)) (Y (Min s))))
              (mkPoint (Z.max (X (Max r)) (X (Max s))) (Z.max (Y (Max r)) (Y (Max s)))).

(** [draw.Op] *)
Inductive DrawOp := Over | Src.

(** The image library: the decoders registered with [image.Decode], the
    JPEG encoder, and drawing.  [Image] stands for every value of the Go
    interface [image.Image], the [*image.RGBA] canvas included. *)
Class Imaging (Image : Type) := {
  image_Decode : string -> Image + error;
  jpeg_Encode : Image -> Z -> string + error;
  Bounds : Image -> Rectangle;
  image_NewRGBA : Rectangle -> Image;
  draw_Draw : Image -> Rectangle -> Image -> Point -> DrawOp -> Image
}.

(** ** The overlay compositor *)

Section Compositor.
Context {Image : Type} `{Imaging Image}.

(** [loadImage]: open the file and decode it; the image, or the error. *)
Definition loadImage (path : string) : IO (Image + error) :=
  '(data, err) ← ioutil_ReadFile path;
  match data, err with
  | Some bytes, None => ret (image_Decode bytes)
  | _, Some e => ret (inr e)
  | None, None => ret (image_Decode "")
  end.

(** The normalisation of overlay and tag names. *)
Definition normalizeName (name : string) : string :=
  strings_TrimRight (strings_ToLower name) "s".

(** The name an overlay file is stored under. *)
Definition overlayName (fileName : string) : string :=
  let name := strings_TrimSuffix fileName (filepath_Ext fileName) in
  normalizeName name.

(** The body of the loop of [LoadOverlays] over the directory entries. *)
Fixpoint loadOverlayFiles (dir : string) (files : list string)
    (overlays : gmap string Image) : IO (gmap string Image * option error) :=
  match files with
  | [] => ret (overlays, None)
  | file :: rest =>
      r ← loadImage (filepath_Join dir file);
      match r with
      | inr err => ret (overlays, Some err)
      | inl img => loadOverlayFiles dir rest (<[overlayName file := img]> overlays)
      end
  end.

(** [LoadOverlays]: a map of name -> image. *)
Definition LoadOverlays (dir : string) : IO (gmap string Image * option error) :=
  let overlays : gmap string Image := ∅ in
  err ← os_Stat dir;
  if negb (isNil err) then ret (overlays, None)
  else
    '(files, err) ← ioutil_ReadDir dir;
    if negb (isNil err) then ret (overlays, err)
    else loadOverlayFiles dir files overlays.

(** One matching tag: decode the current bytes, draw the game image and
    then the overlay on a canvas of the united bounds, encode as JPEG. *)
Definition composeOverlay (imageBytes : string) (overlayImage : Image)
  : string + error :=
  match image_Decode imageBytes with
  | inr err => inr err
  | inl gameImage =>
      let result := image_NewRGBA (Rectangle_Union (Bounds gameImage) (Bounds overlayImage)) in
      let result := draw_Draw result (Bounds result) gameImage ZP Src in
      let result := draw_Draw result (Bounds result) overlayImage (mkPoint 0 0) Over in
      jpeg_Encode result 90
  end.

(** The loop of [ApplyOverlay] over the tags: the bytes the game holds
    when the loop is left, and the error it is left with. *)
Fixpoint overlayTags (tags : list string) (overlays : gmap string Image)
    (imageBytes : string) : string * option error :=
  match tags with
  | [] => (imageBytes, None)
  | tag :: rest =>
      let tagName := normalizeName tag in
      match overlays !! tagName with
      | None => overlayTags rest overlays imageBytes
      | Some overlayImage =>
          match composeOverlay imageBytes overlayImage with
          | inr err => (imageBytes, Some err)
          | inl buf => overlayTags rest overlays buf
          end
      end
  end.

(** [ApplyOverlay]: the resulting image is saved over the working file. *)
Definition ApplyOverlay (game : Game) (overlays : gmap string Image)
  : IO (Game * option error) :=
  match ImageBytes game with
  | None => ret (game, None)
  | Some imageBytes =>
      if String.eqb (ImagePath game) "" then ret (game, None)
      else
        let '(buf, err) := overlayTags (Tags game) overlays imageBytes in
        let game := setImageBytes game (Some buf) in
        if negb (isNil err) then ret (game, err)
        else
          err ← ioutil_WriteFile (ImagePath game) (sliceBytes (ImageBytes game));
          ret (game, err)
  end.

End Compositor.

(** ** The pipeline driver *)

Section Driver.
Context `{Network} {Image : Type} `{Imaging Image}.


(** The name shown while a game is processed. *)
Definition progressName (game : Game) : string :=
  if negb (String.eqb (Name game) "") then Name game
  else "unknown game with id " +:+ Id game.

(** How one turn of the loop over the games of a user ends. *)
Inductive Turn :=
  | TurnExit (err : error)
  | TurnNotFound (game : Game)
  | TurnDone (game : Game) (fromSearch : bool).

(** One turn of the loop: progress, download, overlay.  The line printed
    on standard output is not recorded. *)
Definition processGame (user : User) (overlays : gmap string Image)
    (game : Game) (i total : nat) : IO Turn :=
  _ ← emit (EvProgress (i * 100 / total));
  _ ← emit (EvDescription ("Processing " +:+ progressName game +:+ " (" +:+ itoa i
                           +:+ "/" +:+ itoa total +:+ ")"));
  '(game, (found, fromSearch, err)) ← DownloadImage game user;
  match err with
  | Some e => ret (TurnExit e)
  | None =>
      if negb found then ret (TurnNotFound game)
      else
        '(game, err) ← ApplyOverlay game overlays;
        match err with
        | Some e => ret (TurnExit e)
        | None => ret (TurnDone game fromSearch)
        end
  end.








End Driver.

(** ** The library of a user: profile and games *)

Section Library.
Context `{Network}.

Definition profilePermalink (steamId64 : string) : string :=
  "http://steamcommunity.com/profiles/" +:+ steamId64 +:+ "/games?tab=all".

Definition steamProfileErrorMessage : string :=
  "The specified profile could not be found.".

(** [GetProfile]: the HTML profile of a user. *)
Definition GetProfile (user : User) : IO (string * option error) :=
  r ← httpGet (profilePermalink (User_SteamId64 user));
  match r with
  | GetErr e => ret ("", Some e)
  | GetOk response =>
      if (StatusCode response >=? 400)%Z then
        ret ("", Some "Profile not found. Make sure you have a public Steam profile.")
      else
        match BodyErr response with
        | Some e => ret ("", Some e)
        | None =>
            let profile := Body response in
            if strings_Contains profile steamProfileErrorMessage then
              ret ("", Some "Profile not found.")
            else ret (profile, None)
        end
  end.

End Library.

(** The three patterns of [GetGames], each with what
    [FindAllStringSubmatch] gives on a text: the groups of the matches,
    from left to right. *)
Class ConfigPatterns := {
  (** app id and name of the game declarations of a profile *)
  profileGamePattern_FindAll : string -> list (string * string);
  (** game id and text of the tags block of the entries of sharedconfig.vdf *)
  gamePattern_FindAll : string -> list (string * string);
  (** the tags of a tags block *)
  tagsPattern_FindAll : string -> list string
}.

Section Games.
Context `{Network} `{ConfigPatterns}.

(** One game declaration of the profile: [games[gameId] = &Game{...}]. *)
Definition addProfileGame (games : gmap string Game) (groups : string * string)
  : gmap string Game :=
  let gameId := groups.1 in
  let gameName := groups.2 in
  let tags := [""] in
  let imagePath := "" in
  <[gameId := mkGame gameId gameName tags imagePath None]> games.

(** One tag of a game of the local file: appended to the game the map
    points to, or the first tag of a new game without name. *)
Definition addTag (gameId : string) (games : gmap string Game) (tag : string)
  : gmap string Game :=
  match games !! gameId with
  | Some game =>
      <[gameId := mkGame (Id game) (Name game) (Tags game ++ [tag])
                         (ImagePath game) (ImageBytes game)]> games
  | None =>
      let gameName := "" in
      <[gameId := mkGame gameId gameName [tag] "" None]> games
  end.

(** One entry of the local file: the loop over its tags. *)
Definition addConfigGame (games : gmap string Game) (gameGroups : string * string)
  : gmap string Game :=
  let gameId := gameGroups.1 in
  let tagsText := gameGroups.2 in
  fold_left (addTag gameId) (tagsPattern_FindAll tagsText) games.

Definition sharedConfFileOf (user : User) : string :=
  filepath_Join (filepath_Join (filepath_Join (User_Dir user) "7") "remote")
                "sharedconfig.vdf".

(** [GetGames]: the games of a user by id ([None] is the nil map), from
    the public profile and the local categories file. *)
Definition GetGames (user : User) : IO (option (gmap string Game) * option error) :=
  '(profile, err) ← GetProfile user;
  if negb (isNil err) then ret (None, err)
  else
    let games := fold_left addProfileGame (profileGamePattern_FindAll profile) ∅ in
    let sharedConfFile := sharedConfFileOf user in
    statErr ← os_Stat sharedConfFile;
    if negb (isNil statErr) then ret (Some games, None)
    else
      '(sharedConfBytes, err) ← ioutil_ReadFile sharedConfFile;
      let sharedConf := sliceBytes sharedConfBytes in
      let games := fold_left addConfigGame (gamePattern_FindAll sharedConf) games in
      ret (Some games, err).

End Games.

(** ** Finding the Steam installation *)

(** [filepath.Join] of any number of elements: empty elements are
    ignored, the others are separated by a slash.  (The cleaning of the
    result is left out.) *)
Fixpoint filepath_JoinElems (elems : list string) : string :=
  match elems with
  | [] => ""
  | e :: rest =>
      if String.eqb e "" then filepath_JoinElems rest
      else match filepath_JoinElems rest with
           | EmptyString => e
           | r => e +:+ "/" +:+ r
           end
  end.

(** What the program asks the operating system apart from files: the
    command line, the home directory of the current user (or the error
    of [user.Current]), and the environment. *)
Class Platform := {
  os_Args : list string;
  user_Current_HomeDir : string + error;
  os_Getenv : string -> string
}.

Section Installation.
Context `{Platform}.

(** The part of [GetSteamInstallation] after the Linux directories. *)
Definition windowsInstallation : IO (string * option error) :=
  let programFiles86Dir := filepath_JoinElems [os_Getenv "ProgramFiles(x86)"; "Steam"] in
  err ← os_Stat programFiles86Dir;
  if isNil err then ret (programFiles86Dir, None)
  else
    let programFilesDir := filepath_JoinElems [os_Getenv "ProgramFiles"; "Steam"] in
    err ← os_Stat programFilesDir;
    if isNil err then ret (programFilesDir, None)
    else ret ("", Some "Could not find Steam installation folder. You can drag and drop the Steam folder into `steamgrid.exe` for a manual override.").

(** [GetSteamInstallation]: the directory given on the command line, or
    the first of the known places that exists. *)
Definition GetSteamInstallation : IO (string * option error) :=
  match os_Args with
  | [_; argDir] =>
      err ← os_Stat argDir;
      if isNil err then ret (argDir, None)
      else ret ("", Some ("Argument must be a valid Steam directory, or empty for auto detection. Got: " +:+ argDir))
  | _ =>
      match user_Current_HomeDir with
      | inl homeDir =>
          let linuxSteamDir := filepath_JoinElems [homeDir; ".local"; "share"; "Steam"] in
          err ← os_Stat linuxSteamDir;
          if isNil err then ret (linuxSteamDir, None)
          else
            let linuxSteamDir := filepath_JoinElems [homeDir; ".steam"; "steam"] in
            err ← os_Stat linuxSteamDir;
            if isNil err then ret (linuxSteamDir, None)
            else windowsInstallation
      | inr _ => windowsInstallation
      end
  end.

End Installation.

(** ** Vocabulary of the statements *)

(** The system after more events were recorded. *)
Definition logged (s : Sys) (es : list Event) : Sys :=
  mkSys (fs s) (trace s ++ es).

(** An empty disk and an empty trace. *)
Definition blank : Sys := mkSys ∅ [].

(** What [tryDownload] returns for a URL: the network is the same in
    every state of the system. *)
Definition downloadResult `{Network} (url : string) : option Response * option error :=
  fst (tryDownload url blank).

(** The URL [getGoogleImage] asks for a name. *)
Definition searchUrl `{Network} (name : string) : string :=
  googleSearchFormat +:+ url_QueryEscape ("steam grid OR header" +:+ name).

(** What [getGoogleImage] returns for a name, and the requests it makes. *)
Definition searchResult `{Network} (name : string) : string * option error :=
  fst (getGoogleImage name blank).

Definition searchEvents `{Network} (name : string) : list Event :=
  trace (snd (getGoogleImage name blank)).

(** What [getImageAlternatives] returns for a game, and the requests it
    makes. *)
Definition resolveResult `{Network} (game : Game) : option Response * bool * option error :=
  fst (getImageAlternatives game blank).

Definition resolveEvents `{Network} (game : Game) : list Event :=
  trace (snd (getImageAlternatives game blank)).

(** The test [err == nil && response != nil] of [getImageAlternatives]. *)
Definition succeeded (r : option Response * option error) : bool :=
  isNil (snd r) && negb (isNil (fst r)).

(** The normalisation as the specification words it: lower-casing, then
    a single trailing "s" removed. *)
Definition normalizeName_spec (name : string) : string :=
  strings_TrimSuffix (strings_ToLower name) "s".

(** [k] copies of one byte. *)
Fixpoint repeatByte (c : ascii) (k : nat) : string :=
  match k with
  | O => EmptyString
  | S k => String c (repeatByte c k)
  end.

(** The events recorded after those of [s0]. *)
Definition eventsSince (s0 s : Sys) : list Event :=
  drop (length (trace s0)) (trace s).

Definition isGet (e : Event) : bool :=
  match e with EvGet _ => true | _ => false end.

(** The operations on the cache entry of one game: a resolution (on the
    network of the day), an overlay pass (with the overlays of the day),
    and a new run of the program, in which [GetGames] makes the record
    anew, with the tags of the day, no path and no bytes. *)
Inductive CacheOp (Image : Type) : Type :=
  | Resolve (net : Network)
  | Overlay (overlays : gmap string Image)
  | NewRun (tags : list string).

Arguments Resolve {Image} net.
Arguments Overlay {Image} overlays.
Arguments NewRun {Image} tags.

Section CacheOps.
Context {Image : Type} `{Imaging Image}.

(** One operation; errors do not stop the sequence, so that every
    sequence the program can go through is a prefix of one of these. *)
Definition runOp (user : User) (op : CacheOp Image) (game : Game) (s : Sys)
  : Game * Sys :=
  match op with
  | Resolve net => let out := @DownloadImage net game user s in (out.1.1, out.2)
  | Overlay overlays => let out := ApplyOverlay game overlays s in (out.1.1, out.2)
  | NewRun tags => (mkGame (Id game) (Name game) tags "" None, s)
  end.

Fixpoint runOps (user : User) (ops : list (CacheOp Image)) (game : Game) (s : Sys)
  : Game * Sys :=
  match ops with
  | [] => (game, s)
  | op :: rest => let out := runOp user op game s in runOps user rest out.1 out.2
  end.

End CacheOps.


Definition isWrite (e : Event) : bool :=
  match e with EvWriteFile _ _ => true | _ => false end.

(** The position of the first write to a path among some events. *)
Fixpoint firstWrite (path : string) (events : list Event) : option nat :=
  match events with
  | [] => None
  | EvWriteFile p _ :: rest =>
      if String.eqb p path then Some 0 else S <$> firstWrite path rest
  | _ :: rest => S <$> firstWrite path rest
  end.

(** Both paths are written, and the first write to [p] comes before the
    first write to [q]. *)
Definition writtenBefore (p q : string) (events : list Event) : bool :=
  match firstWrite p events, firstWrite q events with
  | Some i, Some j => (i <? j)%nat
  | _, _ => false
  end.

(** The tags the local file gives to a game id: those of every entry
    with this id, in the order of the file. *)
Definition configTags `{ConfigPatterns} (gameId : string)
    (entries : list (string * string)) : list string :=
  flat_map (fun entry => if String.eqb entry.1 gameId
                         then tagsPattern_FindAll entry.2 else []) entries.

(** The name the profile gives to a game id: that of its last
    declaration. *)
Definition profileName (gameId : string) (declarations : list (string * string))
  : option string :=
  fold_left (fun name d => if String.eqb d.1 gameId then Some d.2 else name)
            declarations None.

(** A game with more tags at the end. *)
Definition withTags (game : Game) (extra : list string) : Game :=
  mkGame (Id game) (Name game) (Tags game ++ extra) (ImagePath game) (ImageBytes game).

(** The entries [GetGames] finds in the local categories file: none when
    the file is missing, those of the empty text when it cannot be read. *)
Definition configEntries `{ConfigPatterns} (user : User) (s : Sys)
  : list (string * string) :=
  match fs s !! sharedConfFileOf user with
  | Some (File data) => gamePattern_FindAll data
  | Some (Directory _) => gamePattern_FindAll ""
  | None => []
  end.

(** The two signals at the start of a turn of the driver. *)
Definition progressEvents (game : Game) (i total : nat) : list Event :=
  [EvProgress (i * 100 / total);
   EvDescription ("Processing " +:+ progressName game +:+ " (" +:+ itoa i
                  +:+ "/" +:+ itoa total +:+ ")")].

Definition isRequestOrWrite (e : Event) : bool := isGet e || isWrite e.

(** ** Concrete worlds, used to run the program *)

Module Demo.

(** A network given by a table of answers; hosts not in the table do not
    resolve.  The search pattern finds the text after the first "url=" up
    to the end of the answer; query escaping is left out here. *)
Fixpoint lookupUrl (table : list (string * GetResult)) (url : string) : GetResult :=
  match table with
  | [] => GetErr ("Get " +:+ url +:+ ": dial tcp: lookup failed: no such host")
  | (u, r) :: rest => if String.eqb u url then r else lookupUrl rest url
  end.

Definition findUrl (body : string) : option (string * string) :=
  if hasPrefix body "url=" then
    Some (body, String.substring 4 (String.length body - 4) body)
  else None.

Definition network (table : list (string * GetResult)) : Network :=
  {| http_Get := lookupUrl table;
     url_QueryEscape := fun s => s;
     searchPattern_FindStringSubmatch := findUrl |}.

Definition answer (code : Z) (status body : string) : GetResult :=
  GetOk (mkResponse code status body None).

(** Images that remember what was drawn on them: the bounds and the
    sequence of layers.  An encoded image is its layers; the empty byte
    string does not decode. *)
Record Picture := mkPicture { bounds : Rectangle; layers : string }.

Definition coverBounds : Rectangle := mkRect (mkPoint 0 0) (mkPoint 460 215).

Definition pictures : Imaging Picture :=
  {| image_Decode := fun b =>
       if String.eqb b "" then inr "image: unknown format"
       else inl (mkPicture coverBounds b);
     jpeg_Encode := fun img _ => inl (layers img);
     Bounds := bounds;
     image_NewRGBA := fun r => mkPicture r "";
     draw_Draw := fun dst _ src _ op =>
       match op with
       | Src => mkPicture (bounds dst) (layers src)
       | Over => mkPicture (bounds dst) (layers dst +:+ "+" +:+ layers src)
       end |}.

Definition alice : User := mkUser "alice" "1" "76561197960265729" "/steam/userdata/1".

Definition tf2 : Game := mkGame "440" "Team Fortress 2" ["Action"; "Favorite"] "" None.

Definition nameless : Game := mkGame "42" "" [] "" None.

Definition emptySys : Sys := mkSys ∅ [].

Definition tf2Akamai : string := "https://steamcdn-a.akamaihd.net/steam/apps/440/header.jpg".
Definition tf2SteamCdn : string := "http://cdn.steampowered.com/v/gfx/apps/440/header.jpg".
Definition tf2Search : string :=
  "https://ajax.googleapis.com/ajax/services/search/images?v=1.0&rsz=8&q=steam grid OR headerTeam Fortress 2".

(** Source 1 answers 404, source 2 has the image. *)
Definition netSecondary : Network :=
  network [(tf2Akamai, answer 404 "404 Not Found" "");
           (tf2SteamCdn, answer 200 "200 OK" "JPEG-2")].

(** Source 1 answers 500, source 2 has the image. *)
Definition netPrimaryBroken : Network :=
  network [(tf2Akamai, answer 500 "500 Internal Server Error" "");
           (tf2SteamCdn, answer 200 "200 OK" "JPEG-2")].

(** Source 1 answers 400 with an error page. *)
Definition netBadRequest : Network :=
  network [(tf2Akamai, answer 400 "400 Bad Request" "<html>Bad Request</html>")].

(** Source 1 has the image. *)
Definition netPrimary : Network :=
  network [(tf2Akamai, answer 200 "200 OK" "JPEG-1")].

(** Sources 1 and 2 answer 404, the search finds a URL, and that URL
    answers 503. *)
Definition netSearchBroken : Network :=
  network [(tf2Akamai, answer 404 "404 Not Found" "");
           (tf2SteamCdn, answer 404 "404 Not Found" "");
           (tf2Search, answer 200 "200 OK" "url=http://example.org/tf2.jpg");
           (("http://example.org/tf2.jpg"), answer 503 "503 Service Unavailable" "")].

Definition tf2Working : string := "/steam/userdata/1/config/grid/440.jpg".
Definition tf2Backup : string := "/steam/userdata/1/config/grid/440 (original).jpg".

(** A disk where the backup exists and the working copy carries an overlay. *)
Definition sysWithBackup : Sys :=
  mkSys (<[tf2Backup := File "ORIGINAL"]> (<[tf2Working := File "ORIGINAL+action"]> ∅)) [].

(** A disk from before backups were made: only the working copy. *)
Definition sysWithWorking : Sys :=
  mkSys (<[tf2Working := File "LEGACY"]> ∅) [].

Definition overlayDir : string := "/opt/steamgrid/overlays by category".

(** A disk with three overlay files. *)
Definition sysOverlays : Sys :=
  mkSys (<[overlayDir := Directory ["action.png"; "Favorites.jpg"; "bo.png"]]>
        (<[filepath_Join overlayDir "action.png" := File "A"]>
        (<[filepath_Join overlayDir "Favorites.jpg" := File "F"]>
        (<[filepath_Join overlayDir "bo.png" := File "B"]> ∅)))) [].

(** The overlays [LoadOverlays] finds there. *)
Definition overlays : gmap string Picture :=
  fst (fst (@LoadOverlays Picture pictures overlayDir sysOverlays)).

(** No CDN has artwork for the game 42. *)
Definition netNoArtwork : Network :=
  network [("https://steamcdn-a.akamaihd.net/steam/apps/42/header.jpg",
            answer 404 "404 Not Found" "");
           ("http://cdn.steampowered.com/v/gfx/apps/42/header.jpg",
            answer 404 "404 Not Found" "")].


End Demo.

(** ** More concrete worlds *)

Module Scenes.

(** Both CDNs answer 404 for the game 440 and the search host does not
    resolve. *)
Definition netSearchDown : Network :=
  Demo.network [(Demo.tf2Akamai, Demo.answer 404 "404 Not Found" "");
                (Demo.tf2SteamCdn, Demo.answer 404 "404 Not Found" "")].

Definition overlayDir : string := "/opt/steamgrid/overlays by category".

(** Two overlay files with the same normalised name. *)
Definition sysColliding : Sys :=
  mkSys (<[overlayDir := Directory ["demo.png"; "Demos.jpg"]]>
        (<[filepath_Join overlayDir "demo.png" := File "LOWER"]>
        (<[filepath_Join overlayDir "Demos.jpg" := File "UPPER"]> ∅))) [].

(** The second of three overlay files is empty and does not decode. *)
Definition sysBroken : Sys :=
  mkSys (<[overlayDir := Directory ["action.png"; "broken.png"; "favorite.png"]]>
        (<[filepath_Join overlayDir "action.png" := File "A"]>
        (<[filepath_Join overlayDir "broken.png" := File ""]>
        (<[filepath_Join overlayDir "favorite.png" := File "F"]> ∅)))) [].

(** A resolved game without tags, and one whose bytes do not decode. *)
Definition untagged : Game :=
  mkGame "440" "Team Fortress 2" [] Demo.tf2Working (Some "BASE").

Definition undecodable : Game :=
  mkGame "440" "Team Fortress 2" ["Action"] Demo.tf2Working (Some "").

(** Patterns that know one profile and one categories file. *)
Definition patterns : ConfigPatterns :=
  {| profileGamePattern_FindAll := fun text =>
       if String.eqb text "PROFILE"
       then [("440", "Team Fortress 2"); ("570", "Dota 2")] else [];
     gamePattern_FindAll := fun text =>
       if String.eqb text "CONFIG" then [("440", "T440"); ("999", "T999")] else [];
     tagsPattern_FindAll := fun text =>
       if String.eqb text "T440" then ["Action"; "Favorite"]
       else if String.eqb text "T999" then ["Indie"] else [] |}.

Definition aliceProfile : string :=
  "http://steamcommunity.com/profiles/76561197960265729/games?tab=all".

(** The profile of alice is public. *)
Definition netProfile : Network :=
  Demo.network [(aliceProfile, Demo.answer 200 "200 OK" "PROFILE")].

(** The profile host does not resolve. *)
Definition netProfileDown : Network := Demo.network [].

Definition sysConfig : Sys :=
  mkSys (<["/steam/userdata/1/7/remote/sharedconfig.vdf" := File "CONFIG"]> ∅) [].

(** The game 440 is on the secondary CDN only; the game 570 is on no
    CDN, the search finds a URL for it, and that URL serves an image. *)
Definition dota : Game := mkGame "570" "Dota 2" [] "" None.

Definition dotaSearch : string :=
  "https://ajax.googleapis.com/ajax/services/search/images?v=1.0&rsz=8&q=steam grid OR headerDota 2".

Definition netThird : Network :=
  Demo.network
    [(Demo.tf2Akamai, Demo.answer 404 "404 Not Found" "");
     (Demo.tf2SteamCdn, Demo.answer 200 "200 OK" "JPEG-2");
     ("https://steamcdn-a.akamaihd.net/steam/apps/570/header.jpg",
      Demo.answer 404 "404 Not Found" "");
     ("http://cdn.steampowered.com/v/gfx/apps/570/header.jpg",
      Demo.answer 404 "404 Not Found" "");
     (dotaSearch, Demo.answer 200 "200 OK" "url=http://example.org/dota.jpg");
     ("http://example.org/dota.jpg", Demo.answer 200 "200 OK" "JPEG-3")].

(** The games [GetGames] finds for alice there. *)
Definition aliceGames : gmap string Game :=
  match (@GetGames netProfile patterns Demo.alice sysConfig).1.1 with
  | Some games => games
  | None => ∅
  end.

End Scenes.

(** ** Running the primitives *)

Ltac io_unfold :=
  cbv [mbind IO_bind bind mret IO_ret ret httpGet emit getFs putFs] in *.

Lemma logged_logged s a b : logged (logged s a) b = logged s (a ++ b).
Proof. unfold logged; cbn. by rewrite <- app_assoc. Qed.

Lemma logged_nil s : logged s [] = s.
Proof. destruct s; unfold logged; cbn. by rewrite app_nil_r. Qed.

Lemma eventsSince_logged s es : eventsSince s (logged s es) = es.
Proof. unfold eventsSince, logged; cbn. by rewrite drop_app_length. Qed.

Lemma bind_run {A B} (m : IO A) (k : A -> IO B) s :
  (m ≫= k) s = k (m s).1 (m s).2.
Proof. io_unfold. by destruct (m s). Qed.

Section ResolverFacts.
Context `{Network}.

Lemma tryDownload_run url s :
  tryDownload url s = (downloadResult url, logged s [EvGet url]).
Proof.
  unfold downloadResult, tryDownload. io_unfold.
  destruct (http_Get url) as [e|r]; cbn; [reflexivity|].
  destruct (StatusCode r =? 404)%Z; [reflexivity|].
  destruct (StatusCode r >? 400)%Z; reflexivity.
Qed.

Lemma getGoogleImage_run name s :
  getGoogleImage name s = (searchResult name, logged s (searchEvents name)).
Proof.
  unfold searchResult, searchEvents, getGoogleImage.
  destruct (String.eqb name ""); io_unfold; cbn.
  - by rewrite logged_nil.
  - destruct (http_Get _) as [e|r]; cbn; [reflexivity|].
    destruct (BodyErr r); cbn; [reflexivity|].
    destruct (searchPattern_FindStringSubmatch _) as [[? ?]|]; reflexivity.
Qed.

End ResolverFacts.

Section ResolverCases.
Context `{Network}.

Lemma downloadResult_err url e :
  http_Get url = GetErr e -> downloadResult url = (None, Some e).
Proof. intros E. unfold downloadResult, tryDownload. io_unfold. by rewrite E. Qed.

Lemma downloadResult_404 url r :
  http_Get url = GetOk r -> StatusCode r = 404%Z -> downloadResult url = (None, None).
Proof. intros E C. unfold downloadResult, tryDownload. io_unfold. by rewrite E, C. Qed.

Lemma downloadResult_above url r :
  http_Get url = GetOk r -> StatusCode r <> 404%Z -> (400 < StatusCode r)%Z ->
  downloadResult url =
    (None, Some ("Failed to download image " +:+ url +:+ ": " +:+ Status r)).
Proof.
  intros E C L. unfold downloadResult, tryDownload. io_unfold. rewrite E. cbn.
  destruct (Z.eqb_spec (StatusCode r) 404); [done|].
  destruct (Z.gtb_spec (StatusCode r) 400); [done|lia].
Qed.

Lemma downloadResult_upto url r :
  http_Get url = GetOk r -> StatusCode r <> 404%Z -> (StatusCode r <= 400)%Z ->
  downloadResult url = (Some r, None).
Proof.
  intros E C L. unfold downloadResult, tryDownload. io_unfold. rewrite E. cbn.
  destruct (Z.eqb_spec (StatusCode r) 404); [done|].
  destruct (Z.gtb_spec (StatusCode r) 400); [lia|done].
Qed.

(** A download never hands back both a response and an error. *)
Lemma downloadResult_succeeded url :
  succeeded (downloadResult url) = true ->
  exists r, downloadResult url = (Some r, None) /\ http_Get url = GetOk r.
Proof.
  unfold succeeded, downloadResult, tryDownload. io_unfold.
  destruct (http_Get url) as [e|r]; cbn; [done|].
  destruct (StatusCode r =? 404)%Z; cbn; [done|].
  destruct (StatusCode r >? 400)%Z; cbn; [done|]. eauto.
Qed.

(** The exits of [getImageAlternatives], one after the other. *)
Lemma getImageAlternatives_cases game s :
  let a := akamaiUrl (Id game) in
  let c := steamCdnUrl (Id game) in
  let d1 := downloadResult a in
  let d2 := downloadResult c in
  let g := searchResult (Name game) in
  let d3 := downloadResult g.1 in
  getImageAlternatives game s =
    if succeeded d1 then ((d1.1, false, d1.2), logged s [EvGet a])
    else if succeeded d2 then ((d2.1, false, d2.2), logged s [EvGet a; EvGet c])
    else if negb (isNil g.2) then
      ((d2.1, true, g.2), logged s ([EvGet a; EvGet c] ++ searchEvents (Name game)))
    else if succeeded d3 then
      ((d3.1, true, d3.2),
       logged s ([EvGet a; EvGet c] ++ searchEvents (Name game) ++ [EvGet g.1]))
    else
      ((None, false, None),
       logged s ([EvGet a; EvGet c] ++ searchEvents (Name game) ++ [EvGet g.1])).
Proof.
  intros a c d1 d2 g d3. unfold getImageAlternatives.
  rewrite bind_run, tryDownload_run. cbn. fold a d1.
  unfold succeeded. destruct d1 as [r1 e1]. cbn.
  destruct (isNil e1 && negb (isNil r1)); [reflexivity|].
  rewrite bind_run, tryDownload_run. cbn. fold c d2. rewrite logged_logged.
  destruct d2 as [r2 e2]. cbn.
  destruct (isNil e2 && negb (isNil r2)); [reflexivity|].
  rewrite bind_run, getGoogleImage_run. cbn. fold g. rewrite logged_logged.
  subst d3. destruct g as [url e]. cbn.
  destruct (isNil e); cbn; [|reflexivity].
  rewrite bind_run, tryDownload_run. cbn. rewrite logged_logged.
  destruct (downloadResult url) as [r3 e3]. cbn.
  rewrite <- ?app_assoc. cbn.
  destruct (isNil e3 && negb (isNil r3)); reflexivity.
Qed.

End ResolverCases.

(** ** Running the image cache *)

Lemma working_neq_backup game user : workingPath game user <> backupPath game user.
Proof.
  unfold workingPath, backupPath, filepath_Join. intros E.
  do 3 apply (inj (String.append _)) in E.
  discriminate E.
Qed.

Lemma os_Stat_run path s :
  os_Stat path s =
    (match fs s !! path with
     | Some _ => None
     | None => Some ("stat " +:+ path +:+ ": no such file or directory")
     end, logged s [EvStat path]).
Proof. unfold os_Stat. io_unfold. cbn. by destruct (fs s !! path). Qed.

Lemma ioutil_ReadFile_run path s :
  ioutil_ReadFile path s =
    (match fs s !! path with
     | Some (File data) => (Some data, None)
     | Some (Directory _) => (None, Some ("read " +:+ path +:+ ": is a directory"))
     | None => (None, Some ("open " +:+ path +:+ ": no such file or directory"))
     end, logged s [EvReadFile path]).
Proof. unfold ioutil_ReadFile. io_unfold. cbn. by destruct (fs s !! path) as [[]|]. Qed.

Lemma ioutil_WriteFile_run path data s :
  ioutil_WriteFile path data s =
    match fs s !! path with
    | Some (Directory _) =>
        (Some ("open " +:+ path +:+ ": is a directory"), logged s [EvWriteFile path data])
    | _ => (None, mkSys (<[path := File data]> (fs s)) (trace s ++ [EvWriteFile path data]))
    end.
Proof. unfold ioutil_WriteFile. io_unfold. cbn. by destruct (fs s !! path) as [[]|]. Qed.

Section CacheFacts.
Context `{Network}.

Lemma getImageAlternatives_run game s :
  getImageAlternatives game s = (resolveResult game, logged s (resolveEvents game)).
Proof.
  unfold resolveResult, resolveEvents.
  rewrite (getImageAlternatives_cases game s), (getImageAlternatives_cases game blank).
  cbv zeta.
  repeat match goal with |- context [if ?b then _ else _] => destruct b end;
    reflexivity.
Qed.

Lemma resolveResult_setImagePath game path :
  resolveResult (setImagePath game path) = resolveResult game.
Proof. reflexivity. Qed.

Lemma resolveEvents_setImagePath game path :
  resolveEvents (setImagePath game path) = resolveEvents game.
Proof. reflexivity. Qed.

Lemma DownloadImage_backup game user s b :
  fs s !! backupPath game user = Some (File b) ->
  DownloadImage game user s =
    ((setImageBytes (setImagePath game (workingPath game user)) (Some b), (true, false, None)),
     logged s [EvStat (backupPath game user); EvReadFile (backupPath game user)]).
Proof.
  intros E. unfold DownloadImage.
  rewrite bind_run, os_Stat_run. cbn. rewrite E. cbn.
  rewrite bind_run, ioutil_ReadFile_run. cbn. rewrite E. cbn.
  by rewrite logged_logged.
Qed.

Lemma DownloadImage_backup_fs game user s :
  is_Some (fs s !! backupPath game user) ->
  fs (DownloadImage game user s).2 = fs s.
Proof.
  intros [n E]. unfold DownloadImage.
  rewrite bind_run, os_Stat_run. cbn. rewrite E. cbn.
  rewrite bind_run, ioutil_ReadFile_run. cbn. rewrite E. destruct n; reflexivity.
Qed.

Lemma DownloadImage_working game user s b :
  fs s !! backupPath game user = None ->
  fs s !! workingPath game user = Some (File b) ->
  DownloadImage game user s =
    ((setImageBytes (setImagePath game (workingPath game user)) (Some b), (true, false, None)),
     mkSys (<[backupPath game user := File b]> (fs s))
           (trace s ++ [EvStat (backupPath game user); EvStat (workingPath game user);
                        EvReadFile (workingPath game user);
                        EvWriteFile (backupPath game user) b])).
Proof.
  intros Eb Ew. unfold DownloadImage.
  rewrite bind_run, os_Stat_run. cbn. rewrite Eb. cbn.
  rewrite bind_run, os_Stat_run. cbn. rewrite Ew. cbn.
  rewrite bind_run, ioutil_ReadFile_run. cbn. rewrite Ew. cbn.
  rewrite bind_run, ioutil_WriteFile_run. cbn. rewrite Eb. cbn.
  by rewrite <- !app_assoc.
Qed.

Lemma DownloadImage_fresh_found game user s resp fromSearch :
  fs s !! backupPath game user = None ->
  fs s !! workingPath game user = None ->
  resolveResult game = (Some resp, fromSearch, None) ->
  DownloadImage game user s =
    ((setImageBytes (setImagePath game (workingPath game user)) (Some (Body resp)),
      (true, fromSearch, None)),
     mkSys (<[backupPath game user := File (Body resp)]>
              (<[workingPath game user := File (Body resp)]> (fs s)))
           (trace s ++ [EvStat (backupPath game user); EvStat (workingPath game user)]
              ++ resolveEvents game
              ++ [EvWriteFile (workingPath game user) (Body resp);
                  EvWriteFile (backupPath game user) (Body resp)])).
Proof.
  intros Eb Ew R. unfold DownloadImage.
  rewrite bind_run, os_Stat_run. cbn. rewrite Eb. cbn.
  rewrite bind_run, os_Stat_run. cbn. rewrite Ew. cbn.
  rewrite bind_run, getImageAlternatives_run, resolveResult_setImagePath, R. cbn.
  rewrite resolveEvents_setImagePath.
  rewrite bind_run, ioutil_WriteFile_run. cbn. rewrite Ew. cbn.
  rewrite bind_run, ioutil_WriteFile_run. cbn.
  rewrite lookup_insert_ne by apply working_neq_backup. rewrite Eb. cbn.
  by rewrite <- !app_assoc.
Qed.

Lemma DownloadImage_fresh_none game user s fromSearch err :
  fs s !! backupPath game user = None ->
  fs s !! workingPath game user = None ->
  resolveResult game = (None, fromSearch, err) ->
  DownloadImage game user s =
    ((setImagePath game (workingPath game user), (false, false, err)),
     logged s ([EvStat (backupPath game user); EvStat (workingPath game user)]
                 ++ resolveEvents game)).
Proof.
  intros Eb Ew R. unfold DownloadImage.
  rewrite bind_run, os_Stat_run. cbn. rewrite Eb. cbn.
  rewrite bind_run, os_Stat_run. cbn. rewrite Ew. cbn.
  rewrite bind_run, getImageAlternatives_run, resolveResult_setImagePath, R. cbn.
  by rewrite resolveEvents_setImagePath, !logged_logged.
Qed.

End CacheFacts.

(** ** The resolver and hard errors *)

Section ResolverClaims.
Context `{Network}.

(** C1 (the code departs from the claim).  A status above 400 other than
    404 from the primary CDN does not abort the resolution: the error
    [tryDownload] builds is dropped, the secondary CDN is asked, and its
    image is returned as a success without any error. *)
Theorem hard_error_falls_through (game : Game) (s : Sys) (r1 r2 : Response) :
  http_Get (akamaiUrl (Id game)) = GetOk r1 ->
  (400 < StatusCode r1)%Z -> StatusCode r1 <> 404%Z ->
  http_Get (steamCdnUrl (Id game)) = GetOk r2 ->
  (200 <= StatusCode r2 < 300)%Z ->
  (tryDownload (akamaiUrl (Id game)) s).1 =
    (None, Some ("Failed to download image " +:+ akamaiUrl (Id game) +:+ ": " +:+ Status r1))
  /\ getImageAlternatives game s =
       ((Some r2, false, None),
        logged s [EvGet (akamaiUrl (Id game)); EvGet (steamCdnUrl (Id game))]).
Proof.
  intros E1 L1 N1 E2 L2.
  pose proof (downloadResult_above _ _ E1 N1 L1) as D1.
  assert (downloadResult (steamCdnUrl (Id game)) = (Some r2, None)) as D2
    by (apply downloadResult_upto; [done|lia|lia]).
  split.
  - by rewrite tryDownload_run.
  - rewrite getImageAlternatives_cases. cbv zeta. by rewrite D1, D2.
Qed.

(** C2 (the code departs from the claim).  A response whose status is
    exactly 400 is handed back by [tryDownload] as a positive response,
    with no error. *)
Theorem status_400_is_a_success (url : string) (s : Sys) (r : Response) :
  http_Get url = GetOk r -> StatusCode r = 400%Z ->
  tryDownload url s = ((Some r, None), logged s [EvGet url]).
Proof.
  intros E C. rewrite tryDownload_run.
  by rewrite (downloadResult_upto _ _ E) by lia.
Qed.

End ResolverClaims.

Lemma hard_error_falls_through_witness :
  @getImageAlternatives Demo.netPrimaryBroken Demo.tf2 Demo.emptySys =
    ((Some (mkResponse 200 "200 OK" "JPEG-2" None), false, None),
     mkSys ∅ [EvGet Demo.tf2Akamai; EvGet Demo.tf2SteamCdn]).
Proof.
  apply (@hard_error_falls_through Demo.netPrimaryBroken Demo.tf2 Demo.emptySys
           (mkResponse 500 "500 Internal Server Error" "" None)
           (mkResponse 200 "200 OK" "JPEG-2" None));
    cbn; first [reflexivity | lia].
Defined.

Lemma status_400_is_a_success_witness :
  @tryDownload Demo.netBadRequest Demo.tf2Akamai Demo.emptySys =
    ((Some (mkResponse 400 "400 Bad Request" "<html>Bad Request</html>" None), None),
     mkSys ∅ [EvGet Demo.tf2Akamai]).
Proof.
  apply (@status_400_is_a_success Demo.netBadRequest Demo.tf2Akamai Demo.emptySys);
    reflexivity.
Defined.

(** ** Fallback order *)

Section FallbackClaims.
Context `{Network}.

(** A response is never handed back together with an error. *)
Lemma downloadResult_response url r :
  (downloadResult url).1 = Some r -> succeeded (downloadResult url) = true.
Proof.
  unfold succeeded, downloadResult, tryDownload. io_unfold.
  destruct (http_Get url) as [e|r']; cbn; [done|].
  destruct (StatusCode r' =? 404)%Z; cbn; [done|].
  destruct (StatusCode r' >? 400)%Z; cbn; done.
Qed.

(** What the search gives for a game with a name: one request, and the
    group of the first match in the body of the answer. *)
Lemma searchResult_found name resp whole url :
  name <> "" ->
  http_Get (searchUrl name) = GetOk resp -> BodyErr resp = None ->
  searchPattern_FindStringSubmatch (Body resp) = Some (whole, url) ->
  searchResult name = (url, None).
Proof.
  intros N G B F. unfold searchResult, getGoogleImage.
  destruct (String.eqb_spec name "") as [|_]; [done|].
  io_unfold. cbn. fold (searchUrl name). by rewrite G, B, F.
Qed.

Lemma searchEvents_named name :
  name <> "" -> searchEvents name = [EvGet (searchUrl name)].
Proof.
  intros N. unfold searchEvents, getGoogleImage.
  destruct (String.eqb_spec name "") as [|_]; [done|].
  io_unfold. cbn. fold (searchUrl name).
  destruct (http_Get (searchUrl name)) as [e|r]; [done|]. cbn.
  destruct (BodyErr r); [done|].
  by destruct (searchPattern_FindStringSubmatch (Body r)) as [[? ?]|].
Qed.

Lemma searchEvents_nameless : searchEvents "" = [].
Proof. reflexivity. Qed.

(** C3.  When the primary CDN answers 404 and the secondary CDN answers
    with an image (a 2xx response), the resolver returns the secondary's
    response with the search flag false after exactly two requests, so
    the search is never made; with no cached file, [DownloadImage] stores
    the secondary's bytes and reports found without the search flag.  In
    general the three sources are tried in the order primary, secondary,
    search: the requests made are an initial part of the list primary
    URL, secondary URL, search URL (for a game with a name), URL found
    by the search; the first success ends the resolution; a success of
    the primary or the secondary comes with the search flag false; when
    both give nothing and the search finds a URL that serves an image,
    that image is returned with the search flag true after these four
    requests; when the third download gives nothing either, the result
    is not found; and the search flag is raised on a response only when
    it was fetched from the URL the search found. *)
Theorem fallback_ordering (game : Game) (user : User) (s : Sys) (r1 r2 : Response) :
  http_Get (akamaiUrl (Id game)) = GetOk r1 -> StatusCode r1 = 404%Z ->
  http_Get (steamCdnUrl (Id game)) = GetOk r2 -> (200 <= StatusCode r2 < 300)%Z ->
  getImageAlternatives game s =
    ((Some r2, false, None),
     logged s [EvGet (akamaiUrl (Id game)); EvGet (steamCdnUrl (Id game))])
  /\ (fs s !! backupPath game user = None ->
      fs s !! workingPath game user = None ->
      DownloadImage game user s =
        ((setImageBytes (setImagePath game (workingPath game user)) (Some (Body r2)),
          (true, false, None)),
         mkSys (<[backupPath game user := File (Body r2)]>
                  (<[workingPath game user := File (Body r2)]> (fs s)))
               (trace s ++ [EvStat (backupPath game user); EvStat (workingPath game user);
                            EvGet (akamaiUrl (Id game)); EvGet (steamCdnUrl (Id game));
                            EvWriteFile (workingPath game user) (Body r2);
                            EvWriteFile (backupPath game user) (Body r2)])))
  /\ (forall (g : Game) (s0 : Sys),
        let a := akamaiUrl (Id g) in
        let c := steamCdnUrl (Id g) in
        (forall r, downloadResult a = (Some r, None) ->
           getImageAlternatives g s0 = ((Some r, false, None), logged s0 [EvGet a]))
        /\ (forall r, succeeded (downloadResult a) = false ->
              downloadResult c = (Some r, None) ->
              getImageAlternatives g s0 =
                ((Some r, false, None), logged s0 [EvGet a; EvGet c]))
        /\ (forall r err, (getImageAlternatives g s0).1 = (Some r, true, err) ->
              succeeded (downloadResult a) = false
              /\ succeeded (downloadResult c) = false
              /\ err = None
              /\ exists url, searchResult (Name g) = (url, None)
                             /\ http_Get url = GetOk r
                             /\ eventsSince s0 (getImageAlternatives g s0).2 =
                                  [EvGet a; EvGet c] ++ searchEvents (Name g) ++ [EvGet url])
        /\ (forall found whole url image,
              Name g <> "" ->
              succeeded (downloadResult a) = false ->
              succeeded (downloadResult c) = false ->
              http_Get (searchUrl (Name g)) = GetOk found -> BodyErr found = None ->
              searchPattern_FindStringSubmatch (Body found) = Some (whole, url) ->
              http_Get url = GetOk image -> (200 <= StatusCode image < 300)%Z ->
              getImageAlternatives g s0 =
                ((Some image, true, None),
                 logged s0 [EvGet a; EvGet c; EvGet (searchUrl (Name g)); EvGet url]))
        /\ (forall url,
              succeeded (downloadResult a) = false ->
              succeeded (downloadResult c) = false ->
              searchResult (Name g) = (url, None) ->
              succeeded (downloadResult url) = false ->
              getImageAlternatives g s0 =
                ((None, false, None),
                 logged s0 ([EvGet a; EvGet c] ++ searchEvents (Name g) ++ [EvGet url])))
        /\ eventsSince s0 (getImageAlternatives g s0).2
             `prefix_of` [EvGet a; EvGet c] ++ searchEvents (Name g)
                           ++ [EvGet (searchResult (Name g)).1]
        /\ (Name g <> "" -> searchEvents (Name g) = [EvGet (searchUrl (Name g))])
        /\ (Name g = "" -> searchEvents (Name g) = [])).
Proof.
  intros E1 C1 E2 L2.
  pose proof (downloadResult_404 _ _ E1 C1) as D1.
  assert (downloadResult (steamCdnUrl (Id game)) = (Some r2, None)) as D2
    by (apply downloadResult_upto; [done|lia|lia]).
  assert (getImageAlternatives game s =
    ((Some r2, false, None),
     logged s [EvGet (akamaiUrl (Id game)); EvGet (steamCdnUrl (Id game))])) as R.
  { rewrite getImageAlternatives_cases. cbv zeta. by rewrite D1, D2. }
  split; [exact R|]. split.
  - intros Eb Ew.
    rewrite (DownloadImage_fresh_found game user s r2 false Eb Ew).
    + f_equal. f_equal. f_equal. unfold resolveEvents.
      rewrite getImageAlternatives_cases. cbv zeta. by rewrite D1, D2.
    + unfold resolveResult. rewrite getImageAlternatives_cases. cbv zeta.
      by rewrite D1, D2.
  - intros g s0 a c. split; [|split; [|split; [|split; [|split; [|split; [|split]]]]]].
    + intros r D. rewrite getImageAlternatives_cases. cbv zeta. fold a.
      by rewrite D.
    + intros r S1 D. rewrite getImageAlternatives_cases. cbv zeta. fold a c.
      by rewrite S1, D.
    + intros r err. rewrite getImageAlternatives_cases. cbv zeta. fold a c.
      destruct (succeeded (downloadResult a)) eqn:S1; [cbn; congruence|].
      destruct (succeeded (downloadResult c)) eqn:S2; [cbn; congruence|].
      destruct (searchResult (Name g)) as [url e] eqn:G. cbn [fst snd].
      destruct e as [e|]; cbn [isNil negb].
      * cbn. intros [= D _]. apply downloadResult_response in D. congruence.
      * destruct (succeeded (downloadResult url)) eqn:S3; [|cbn; congruence].
        destruct (downloadResult_succeeded _ S3) as (r' & D3 & E3).
        rewrite D3. cbn. intros [= -> <-]. repeat split; [].
        exists url. repeat split; [done|]. by rewrite eventsSince_logged.
    + intros found whole url image N S1 S2 G B F I L.
      rewrite getImageAlternatives_cases. cbv zeta. fold a c. rewrite S1, S2.
      rewrite (searchResult_found _ _ _ _ N G B F), (searchEvents_named _ N).
      cbn [fst snd isNil negb].
      assert (downloadResult url = (Some image, None)) as ->
        by (apply downloadResult_upto; [done|lia|lia]).
      reflexivity.
    + intros url S1 S2 G S3.
      rewrite getImageAlternatives_cases. cbv zeta. fold a c.
      rewrite S1, S2, G. cbn [fst snd isNil negb]. by rewrite S3.
    + rewrite getImageAlternatives_cases. cbv zeta. fold a c.
      destruct (succeeded (downloadResult a));
        [cbn [snd]; rewrite eventsSince_logged; by eexists (_ :: _)|].
      destruct (succeeded (downloadResult c));
        [cbn [snd]; rewrite eventsSince_logged; by eexists|].
      destruct (negb (isNil (searchResult (Name g)).2)).
      { cbn [snd]. rewrite eventsSince_logged.
        exists [EvGet (searchResult (Name g)).1]. by rewrite <- !app_assoc. }
      destruct (succeeded (downloadResult (searchResult (Name g)).1));
        cbn [snd]; rewrite eventsSince_logged; exists []; by rewrite app_nil_r.
    + apply searchEvents_named.
    + intros ->. apply searchEvents_nameless.
Qed.

End FallbackClaims.

Lemma fallback_ordering_witness :
  @getImageAlternatives Scenes.netThird Demo.tf2 Demo.emptySys =
    ((Some (mkResponse 200 "200 OK" "JPEG-2" None), false, None),
     mkSys ∅ [EvGet Demo.tf2Akamai; EvGet Demo.tf2SteamCdn])
  /\ @getImageAlternatives Scenes.netThird Scenes.dota Demo.emptySys =
       ((Some (mkResponse 200 "200 OK" "JPEG-3" None), true, None),
        mkSys ∅ [EvGet "https://steamcdn-a.akamaihd.net/steam/apps/570/header.jpg";
                 EvGet "http://cdn.steampowered.com/v/gfx/apps/570/header.jpg";
                 EvGet Scenes.dotaSearch; EvGet "http://example.org/dota.jpg"]).
Proof.
  destruct (@fallback_ordering Scenes.netThird Demo.tf2 Demo.alice Demo.emptySys
              (mkResponse 404 "404 Not Found" "" None)
              (mkResponse 200 "200 OK" "JPEG-2" None)) as (A & _ & G).
  - reflexivity.
  - reflexivity.
  - reflexivity.
  - cbn. lia.
  - split; [exact A|].
    destruct (G Scenes.dota Demo.emptySys) as (_ & _ & _ & T & _).
    apply (T (mkResponse 200 "200 OK" "url=http://example.org/dota.jpg" None)
             "url=http://example.org/dota.jpg" "http://example.org/dota.jpg"
             (mkResponse 200 "200 OK" "JPEG-3" None)).
    + discriminate.
    + reflexivity.
    + reflexivity.
    + reflexivity.
    + reflexivity.
    + reflexivity.
    + reflexivity.
    + cbn. lia.
Defined.


(** ** A failing download of the search result *)

Section SearchFailureClaims.
Context `{Network}.

(** C10.  When both CDNs answer 404 and the search yields a URL, a
    failure to download that URL (no connection, or a status above 400
    other than 404) is dropped: the request is made, and
    [getImageAlternatives] returns no response, the search flag false
    and no error; with no cached file [DownloadImage] reports the game
    as not found, without error and without writing anything. *)
Theorem search_download_failure_is_discarded
    (game : Game) (user : User) (s : Sys) (r1 r2 : Response) (url : string) :
  http_Get (akamaiUrl (Id game)) = GetOk r1 -> StatusCode r1 = 404%Z ->
  http_Get (steamCdnUrl (Id game)) = GetOk r2 -> StatusCode r2 = 404%Z ->
  searchResult (Name game) = (url, None) ->
  ((exists e, http_Get url = GetErr e)
   \/ (exists r, http_Get url = GetOk r /\ (400 < StatusCode r)%Z /\ StatusCode r <> 404%Z)) ->
  (exists e, (tryDownload url s).1 = (None, Some e))
  /\ getImageAlternatives game s =
       ((None, false, None),
        logged s ([EvGet (akamaiUrl (Id game)); EvGet (steamCdnUrl (Id game))]
                    ++ searchEvents (Name game) ++ [EvGet url]))
  /\ (fs s !! backupPath game user = None ->
      fs s !! workingPath game user = None ->
      (DownloadImage game user s).1.2 = (false, false, None)
      /\ fs (DownloadImage game user s).2 = fs s).
Proof.
  intros E1 C1 E2 C2 G F.
  pose proof (downloadResult_404 _ _ E1 C1) as D1.
  pose proof (downloadResult_404 _ _ E2 C2) as D2.
  assert (exists e, downloadResult url = (None, Some e)) as [e D3].
  { destruct F as [[e E]|(r & E & L & N)].
    - exists e. by apply downloadResult_err.
    - eexists. by apply downloadResult_above. }
  assert (getImageAlternatives game s =
       ((None, false, None),
        logged s ([EvGet (akamaiUrl (Id game)); EvGet (steamCdnUrl (Id game))]
                    ++ searchEvents (Name game) ++ [EvGet url]))) as R.
  { rewrite getImageAlternatives_cases. cbv zeta. rewrite D1, D2, G. cbn [fst snd]. by rewrite D3. }
  split; [|split].
  - exists e. by rewrite tryDownload_run.
  - exact R.
  - intros Eb Ew.
    rewrite (DownloadImage_fresh_none game user s false None Eb Ew); [done|].
    unfold resolveResult. rewrite getImageAlternatives_cases. cbv zeta.
    rewrite D1, D2, G. cbn [fst snd]. by rewrite D3.
Qed.

End SearchFailureClaims.

Lemma search_download_failure_is_discarded_witness :
  @getImageAlternatives Demo.netSearchBroken Demo.tf2 Demo.emptySys =
    ((None, false, None),
     mkSys ∅ [EvGet Demo.tf2Akamai; EvGet Demo.tf2SteamCdn; EvGet Demo.tf2Search;
              EvGet "http://example.org/tf2.jpg"]).
Proof.
  apply (@search_download_failure_is_discarded Demo.netSearchBroken Demo.tf2 Demo.alice
           Demo.emptySys
           (mkResponse 404 "404 Not Found" "" None)
           (mkResponse 404 "404 Not Found" "" None)
           "http://example.org/tf2.jpg").
  - reflexivity.
  - reflexivity.
  - reflexivity.
  - reflexivity.
  - reflexivity.
  - right. exists (mkResponse 503 "503 Service Unavailable" "" None).
    cbn. split; [reflexivity|]. split; [lia|lia].
Defined.

(** ** Cached artwork *)

Lemma eventsSince_app s m es : eventsSince s (mkSys m (trace s ++ es)) = es.
Proof. unfold eventsSince. cbn. by rewrite drop_app_length. Qed.

Section CacheClaims.
Context `{Network}.

(** C5.  When the backup file of a game exists, [DownloadImage] loads
    its bytes into the game and returns found = true, fromSearch = false
    and no error, leaves the disk as it is and makes no request.  When
    only the working file exists, it loads the working file's bytes,
    writes a backup with the same bytes, returns the same flags, and
    makes no request either. *)
Theorem cached_artwork_is_used_without_network
    (game : Game) (user : User) (s : Sys) (b : string) :
  (fs s !! backupPath game user = Some (File b) ->
     let out := DownloadImage game user s in
     ImageBytes out.1.1 = Some b
     /\ out.1.2 = (true, false, None)
     /\ fs out.2 = fs s
     /\ eventsSince s out.2 =
          [EvStat (backupPath game user); EvReadFile (backupPath game user)]
     /\ Forall (fun e => isGet e = false) (eventsSince s out.2))
  /\ (fs s !! backupPath game user = None ->
      fs s !! workingPath game user = Some (File b) ->
      let out := DownloadImage game user s in
      ImageBytes out.1.1 = Some b
      /\ out.1.2 = (true, false, None)
      /\ fs out.2 = <[backupPath game user := File b]> (fs s)
      /\ fs out.2 !! backupPath game user = Some (File b)
      /\ fs out.2 !! workingPath game user = Some (File b)
      /\ eventsSince s out.2 =
           [EvStat (backupPath game user); EvStat (workingPath game user);
            EvReadFile (workingPath game user); EvWriteFile (backupPath game user) b]
      /\ Forall (fun e => isGet e = false) (eventsSince s out.2)).
Proof.
  split.
  - intros Eb out. subst out. rewrite (DownloadImage_backup _ _ _ _ Eb).
    cbn [fst snd]. rewrite eventsSince_logged.
    repeat split; repeat constructor.
  - intros Eb Ew out. subst out. rewrite (DownloadImage_working _ _ _ _ Eb Ew).
    cbn [fst snd]. rewrite eventsSince_app. cbn.
    repeat split; repeat constructor.
    + apply lookup_insert_eq.
    + rewrite lookup_insert_ne; [done|]. intros E. by apply (working_neq_backup game user).
Qed.

End CacheClaims.

Lemma cached_artwork_is_used_without_network_witness :
  ImageBytes (@DownloadImage Demo.netPrimary Demo.tf2 Demo.alice Demo.sysWithBackup).1.1
    = Some "ORIGINAL"
  /\ fs (@DownloadImage Demo.netPrimary Demo.tf2 Demo.alice Demo.sysWithWorking).2
       !! Demo.tf2Backup = Some (File "LEGACY").
Proof.
  split.
  - destruct (proj1 (@cached_artwork_is_used_without_network Demo.netPrimary Demo.tf2
                       Demo.alice Demo.sysWithBackup "ORIGINAL")) as (B & _).
    + reflexivity.
    + exact B.
  - destruct (proj2 (@cached_artwork_is_used_without_network Demo.netPrimary Demo.tf2
                       Demo.alice Demo.sysWithWorking "LEGACY")) as (_ & _ & _ & B & _).
    + reflexivity.
    + reflexivity.
    + exact B.
Defined.

(** ** Name normalisation and overlay lookup *)

Lemma TrimRight_s_split (s : string) :
  exists k, s = strings_TrimRight s "s" +:+ repeatByte "s" k.
Proof.
  induction s as [|c r [k IH]]; [by exists 0|].
  cbn [strings_TrimRight]. destruct (strings_TrimRight r "s") as [|d u] eqn:T.
  - cbn in IH. subst r. cbn [inCutset]. destruct (Ascii.eqb_spec c "s") as [->|N]; cbn.
    + by exists (S k).
    + by exists k.
  - exists k. cbn. by rewrite IH at 1.
Qed.

Lemma append_nil_l (x : string) : "" +:+ x = x.
Proof. reflexivity. Qed.

Lemma append_cons (c : ascii) (t x : string) : String c t +:+ x = String c (t +:+ x).
Proof. reflexivity. Qed.

Lemma TrimRight_s_no_trailing (s t : string) :
  strings_TrimRight s "s" <> t +:+ "s".
Proof.
  revert t. induction s as [|c r IH]; intros t.
  - destruct t; [rewrite append_nil_l | rewrite append_cons]; discriminate.
  - cbn [strings_TrimRight]. destruct (strings_TrimRight r "s") as [|d u] eqn:T.
    + cbn [inCutset]. destruct (Ascii.eqb_spec c "s") as [->|N]; cbn.
      * destruct t; [rewrite append_nil_l | rewrite append_cons]; discriminate.
      * destruct t as [|c' t']; [rewrite append_nil_l; congruence|].
        rewrite append_cons. intros [= _ E]. 
        destruct t'; [rewrite append_nil_l in E | rewrite append_cons in E]; discriminate.
    + destruct t as [|c' t']; [rewrite append_nil_l; congruence|].
      rewrite append_cons. intros [= _ E]. by apply (IH t').
Qed.

Section NormalizeFacts.
Context {Image : Type} `{Imaging Image}.

Lemma loadOverlayFiles_keys dir files :
  forall (m m' : gmap string Image) s s',
  loadOverlayFiles dir files m s = ((m', None), s') ->
  forall k, is_Some (m' !! k) <->
            is_Some (m !! k) \/ exists file, file ∈ files /\ overlayName file = k.
Proof.
  induction files as [|file rest IH]; intros m m' s s' E k.
  - cbn in E. injection E as <- _. split; [by left|]. intros [?|(f & F & _)]; [done|].
    by apply elem_of_nil in F.
  - cbn [loadOverlayFiles] in E. rewrite bind_run in E.
    destruct (loadImage (filepath_Join dir file) s) as [[img|e] s1]; cbn in E; [|done].
    rewrite (IH _ _ _ _ E k). split.
    + intros [I|(f & F & N)].
      * destruct (decide (overlayName file = k)) as [<-|N].
        -- right. exists file. split; [apply list_elem_of_here|done].
        -- left. by rewrite lookup_insert_ne in I.
      * right. exists f. split; [by apply list_elem_of_further|done].
    + intros [I|(f & F & N)].
      * left. destruct (decide (overlayName file = k)) as [<-|N].
        -- rewrite lookup_insert_eq. eauto.
        -- by rewrite lookup_insert_ne.
      * apply elem_of_cons in F as [->|F].
        -- left. rewrite N, lookup_insert_eq. eauto.
        -- right. eauto.
Qed.

Lemma LoadOverlays_listing dir files s :
  fs s !! dir = Some (Directory files) ->
  LoadOverlays dir s =
    loadOverlayFiles dir files ∅ (logged s [EvStat dir; EvReadDir dir]).
Proof.
  intros E. unfold LoadOverlays.
  rewrite bind_run, os_Stat_run. cbn. rewrite E. cbn.
  rewrite bind_run. unfold ioutil_ReadDir. io_unfold. cbn. rewrite E. cbn.
  by rewrite <- app_assoc.
Qed.

(** C4 (as amended).  The normalisation of a tag or of an overlay file
    stem is lower-casing followed by the removal of every trailing "s":
    the lower-cased name is the normal form followed by some number of
    "s", and the normal form does not end in "s".  A tag finds an overlay
    exactly when a loaded overlay file has a stem with the same normal
    form. *)
Theorem normalization_strips_every_trailing_s
    (dir : string) (files : list string) (s s' : Sys)
    (overlays : gmap string Image) (name tag : string) :
  fs s !! dir = Some (Directory files) ->
  LoadOverlays dir s = ((overlays, None), s') ->
  (exists k, strings_ToLower name = normalizeName name +:+ repeatByte "s" k)
  /\ (forall t, normalizeName name <> t +:+ "s")
  /\ (forall file,
        overlayName file = normalizeName (strings_TrimSuffix file (filepath_Ext file)))
  /\ (is_Some (overlays !! normalizeName tag) <->
      exists file, file ∈ files /\ overlayName file = normalizeName tag).
Proof.
  intros D L. split; [apply TrimRight_s_split|].
  split; [apply TrimRight_s_no_trailing|]. split; [reflexivity|].
  rewrite (LoadOverlays_listing _ _ _ D) in L.
  rewrite (loadOverlayFiles_keys _ _ _ _ _ _ L). split.
  - intros [I|?]; [|done]. rewrite lookup_empty in I. by destruct I.
  - by right.
Qed.

End NormalizeFacts.

Lemma normalization_strips_every_trailing_s_witness :
  (exists k, strings_ToLower "Boss" = normalizeName "Boss" +:+ repeatByte "s" k)
  /\ is_Some (Demo.overlays !! normalizeName "Boss").
Proof.
  destruct (@normalization_strips_every_trailing_s Demo.Picture Demo.pictures
              Demo.overlayDir ["action.png"; "Favorites.jpg"; "bo.png"]
              Demo.sysOverlays
              (snd (@LoadOverlays Demo.Picture Demo.pictures Demo.overlayDir Demo.sysOverlays))
              Demo.overlays "Boss" "Boss") as (K & _ & _ & M).
  - reflexivity.
  - reflexivity.
  - split; [exact K|]. apply M. exists "bo.png". split; [|reflexivity].
    do 2 apply list_elem_of_further. apply list_elem_of_here.
Defined.

(** C4 (as stated) fails: "Boss" loses both trailing "s", where the
    removal of one "s" would leave "bos"; so the tag "Boss" finds the
    overlay of the file bo.png, although with a single "s" removed the
    two names differ. *)
Lemma normalization_single_s_counterexample :
  normalizeName "Boss" = "bo"
  /\ normalizeName_spec "Boss" = "bos"
  /\ normalizeName "Boss" <> normalizeName_spec "Boss"
  /\ is_Some (Demo.overlays !! normalizeName "Boss")
  /\ normalizeName_spec "Boss"
       <> normalizeName_spec (strings_TrimSuffix "bo.png" (filepath_Ext "bo.png")).
Proof.
  repeat split; try discriminate.
  vm_compute. eauto.
Qed.

(** ** Overlay composition *)

Section OverlayFacts.
Context {Image : Type} `{Imaging Image}.


Lemma ApplyOverlay_run game (overlays : gmap string Image) s :
  ApplyOverlay game overlays s =
    match ImageBytes game with
    | None => ((game, None), s)
    | Some imageBytes =>
        if String.eqb (ImagePath game) "" then ((game, None), s)
        else
          match overlayTags (Tags game) overlays imageBytes with
          | (buf, Some e) => ((setImageBytes game (Some buf), Some e), s)
          | (buf, None) =>
              match fs s !! ImagePath game with
              | Some (Directory _) =>
                  ((setImageBytes game (Some buf),
                    Some ("open " +:+ ImagePath game +:+ ": is a directory")),
                   logged s [EvWriteFile (ImagePath game) buf])
              | _ =>
                  ((setImageBytes game (Some buf), None),
                   mkSys (<[ImagePath game := File buf]> (fs s))
                         (trace s ++ [EvWriteFile (ImagePath game) buf]))
              end
          end
    end.
Proof.
  unfold ApplyOverlay. destruct (ImageBytes game) as [b|]; [|reflexivity].
  destruct (String.eqb (ImagePath game) ""); [reflexivity|].
  destruct (overlayTags _ _ _) as [buf [e|]]; cbn; [reflexivity|].
  rewrite bind_run, ioutil_WriteFile_run. cbn.
  by destruct (fs s !! ImagePath game) as [[]|].
Qed.


End OverlayFacts.


(** ** The backup is written once *)

Lemma paths_of_Id g g' user :
  Id g' = Id g ->
  workingPath g' user = workingPath g user /\ backupPath g' user = backupPath g user.
Proof. unfold workingPath, backupPath. by intros ->. Qed.

Section DownloadFacts.
Context `{Network}.

(** Whatever happens, the game keeps its id and points to its working
    file afterwards. *)
Lemma DownloadImage_game game user s :
  Id (DownloadImage game user s).1.1 = Id game
  /\ ImagePath (DownloadImage game user s).1.1 = workingPath game user.
Proof.
  unfold DownloadImage.
  rewrite bind_run, os_Stat_run. cbn [fst snd].
  destruct (fs s !! backupPath game user) as [nb|]; cbn [isNil].
  - rewrite bind_run. by destruct (ioutil_ReadFile _ _) as [[? ?] ?].
  - rewrite bind_run, os_Stat_run. cbn [fst snd].
    destruct (fs (logged s _) !! workingPath game user) as [nw|]; cbn [isNil].
    + rewrite bind_run. destruct (ioutil_ReadFile _ _) as [[? e] ?]. cbn.
      destruct e; cbn; [done|]. rewrite bind_run.
      by destruct (ioutil_WriteFile _ _ _).
    + rewrite bind_run. destruct (getImageAlternatives _ _) as [[[r f] e] s1]. cbn.
      destruct r as [r|]; [|done]. destruct e; cbn; [done|].
      rewrite bind_run. destruct (ioutil_WriteFile _ _ _) as [e s2]. cbn.
      destruct e; cbn; [done|]. rewrite bind_run.
      by destruct (ioutil_WriteFile _ _ _).
Qed.

Lemma DownloadImage_backup_events game user s :
  is_Some (fs s !! backupPath game user) ->
  (DownloadImage game user s).2 =
    logged s [EvStat (backupPath game user); EvReadFile (backupPath game user)].
Proof.
  intros [n E]. unfold DownloadImage.
  rewrite bind_run, os_Stat_run. cbn. rewrite E. cbn.
  rewrite bind_run, ioutil_ReadFile_run. cbn. rewrite E, logged_logged.
  by destruct n.
Qed.

End DownloadFacts.

Section BackupClaims.
Context {Image : Type} `{Imaging Image}.

Lemma ApplyOverlay_game game (overlays : gmap string Image) s :
  Id (ApplyOverlay game overlays s).1.1 = Id game
  /\ ImagePath (ApplyOverlay game overlays s).1.1 = ImagePath game.
Proof.
  rewrite ApplyOverlay_run. destruct (ImageBytes game); [|done].
  destruct (String.eqb _ _); [done|].
  destruct (overlayTags _ _ _) as [buf [e|]]; [done|].
  by destruct (fs s !! ImagePath game) as [[]|].
Qed.

(** The events of an overlay pass: nothing, or one write to the path of
    the game. *)
Lemma ApplyOverlay_events game (overlays : gmap string Image) s :
  eventsSince s (ApplyOverlay game overlays s).2 = []
  \/ ImagePath game <> ""
     /\ exists buf, eventsSince s (ApplyOverlay game overlays s).2
                    = [EvWriteFile (ImagePath game) buf].
Proof.
  assert (eventsSince s s = []) as N.
  { unfold eventsSince. by rewrite drop_all. }
  rewrite ApplyOverlay_run. destruct (ImageBytes game); [|by left].
  destruct (String.eqb_spec (ImagePath game) ""); [by left|].
  destruct (overlayTags _ _ _) as [buf [e|]]; [by left|]. right. split; [done|].
  exists buf. destruct (fs s !! ImagePath game) as [[]|]; cbn [snd];
    by rewrite ?eventsSince_logged, ?eventsSince_app.
Qed.

Lemma ApplyOverlay_other game (overlays : gmap string Image) s p :
  p <> ImagePath game ->
  fs (ApplyOverlay game overlays s).2 !! p = fs s !! p.
Proof.
  intros N. rewrite ApplyOverlay_run. destruct (ImageBytes game); [|done].
  destruct (String.eqb _ _); [done|].
  destruct (overlayTags _ _ _) as [buf [e|]]; [done|].
  destruct (fs s !! ImagePath game) as [[]|]; cbn [snd fs]; try done;
    by rewrite lookup_insert_ne.
Qed.

Lemma ApplyOverlay_no_path game (overlays : gmap string Image) s :
  ImagePath game = "" -> (ApplyOverlay game overlays s).2 = s.
Proof.
  intros E. rewrite ApplyOverlay_run, E. by destruct (ImageBytes game).
Qed.

Lemma runOp_backup user op game0 game s b :
  Id game = Id game0 ->
  (ImagePath game = "" \/ ImagePath game = workingPath game0 user) ->
  fs s !! backupPath game0 user = Some (File b) ->
  let out := runOp user op game s in
  Id out.1 = Id game0
  /\ (ImagePath out.1 = "" \/ ImagePath out.1 = workingPath game0 user)
  /\ fs out.2 !! backupPath game0 user = Some (File b).
Proof.
  intros I P B. destruct (paths_of_Id game0 game user I) as [W K].
  destruct op as [net|overlays|tags]; cbn.
  - destruct (@DownloadImage_game net game user s) as [I' P'].
    rewrite I', P', W. repeat split; [done|by right|].
    rewrite (@DownloadImage_backup_fs net); [done|]. rewrite K. eauto.
  - destruct (ApplyOverlay_game game overlays s) as [I' P'].
    rewrite I', P'. repeat split; [done..|].
    destruct P as [P|P].
    + by rewrite ApplyOverlay_no_path.
    + rewrite ApplyOverlay_other; [done|]. rewrite P.
      intros E. by apply (working_neq_backup game0 user).
  - repeat split; [done|by left|done].
Qed.

Lemma runOps_backup user ops game0 :
  forall game s b,
  Id game = Id game0 ->
  (ImagePath game = "" \/ ImagePath game = workingPath game0 user) ->
  fs s !! backupPath game0 user = Some (File b) ->
  fs (runOps user ops game s).2 !! backupPath game0 user = Some (File b).
Proof.
  induction ops as [|op rest IH]; intros game s b I P B; [done|].
  cbn [runOps]. destruct (runOp_backup user op game0 game s b I P B) as (I' & P' & B').
  by apply IH.
Qed.

(** C6.  Once the backup of a game exists as a file, no sequence of
    resolutions, overlay passes and new runs changes its bytes: a
    resolution that finds the backup leaves the disk as it is and writes
    nothing, and an overlay pass writes at most the working path of the
    game, which is not the backup path. *)
Theorem backup_is_never_overwritten
    (game : Game) (user : User) (s : Sys) (b : string) (ops : list (CacheOp Image)) :
  (ImagePath game = "" \/ ImagePath game = workingPath game user) ->
  fs s !! backupPath game user = Some (File b) ->
  fs (runOps user ops game s).2 !! backupPath game user = Some (File b)
  /\ (forall net : Network,
        fs (@DownloadImage net game user s).2 = fs s
        /\ forall p data,
             EvWriteFile p data ∉ eventsSince s (@DownloadImage net game user s).2)
  /\ (forall (overlays : gmap string Image) p data,
        EvWriteFile p data ∈ eventsSince s (ApplyOverlay game overlays s).2 ->
        p = workingPath game user /\ p <> backupPath game user).
Proof.
  intros P B. split; [by apply runOps_backup|]. split.
  - intros net. split; [apply DownloadImage_backup_fs; eauto|].
    intros p data. rewrite (@DownloadImage_backup_events net) by eauto.
    rewrite eventsSince_logged. intros E.
    repeat (apply elem_of_cons in E as [E|E]; [discriminate E|]).
    by apply elem_of_nil in E.
  - intros overlays p data E.
    destruct (ApplyOverlay_events game overlays s) as [N|(N & buf & W)].
    + rewrite N in E. by apply elem_of_nil in E.
    + rewrite W in E. apply list_elem_of_singleton in E. injection E as -> _.
      destruct P as [P|P]; [done|]. rewrite P. split; [done|].
      apply working_neq_backup.
Qed.

End BackupClaims.

Lemma backup_is_never_overwritten_witness :
  fs (@runOps Demo.Picture Demo.pictures Demo.alice
        [Resolve Demo.netPrimary; Overlay Demo.overlays; NewRun ["Favorite"];
         Resolve Demo.netSecondary; Overlay Demo.overlays]
        Demo.tf2 Demo.sysWithBackup).2 !! Demo.tf2Backup = Some (File "ORIGINAL").
Proof.
  apply (@backup_is_never_overwritten Demo.Picture Demo.pictures Demo.tf2 Demo.alice
           Demo.sysWithBackup "ORIGINAL").
  - left. reflexivity.
  - reflexivity.
Defined.

(** ** The order of the steps of a fresh download *)

Lemma firstWrite_skip path pre rest :
  Forall (fun e => isWrite e = false) pre ->
  firstWrite path (pre ++ rest) = (fun n => length pre + n) <$> firstWrite path rest.
Proof.
  induction 1 as [|e pre E _ IH]; cbn [app length].
  - by destruct (firstWrite path rest).
  - assert (firstWrite path (e :: pre ++ rest) = S <$> firstWrite path (pre ++ rest)) as ->
      by by destruct e.
    rewrite IH. by destruct (firstWrite path rest).
Qed.

Lemma filepath_Join_nonempty dir name : filepath_Join dir name <> "".
Proof. unfold filepath_Join. by destruct dir. Qed.

Section OrderFacts.
Context `{Network}.

Lemma searchEvents_gets name : Forall (fun e => isGet e = true) (searchEvents name).
Proof.
  unfold searchEvents, getGoogleImage. destruct (String.eqb name ""); [constructor|].
  io_unfold. cbn. destruct (http_Get _) as [e|r]; cbn; [by repeat constructor|].
  destruct (BodyErr r); cbn; [by repeat constructor|].
  destruct (searchPattern_FindStringSubmatch _) as [[? ?]|]; by repeat constructor.
Qed.

(** A resolution makes requests, at least one, and nothing else. *)
Lemma resolveEvents_gets game :
  resolveEvents game <> [] /\ Forall (fun e => isGet e = true) (resolveEvents game).
Proof.
  unfold resolveEvents. rewrite getImageAlternatives_cases. cbv zeta.
  pose proof (searchEvents_gets (Name game)) as S.
  repeat match goal with |- context [if ?b then _ else _] => destruct b end;
    cbn [snd trace logged app]; (split; [discriminate|]);
    repeat (apply Forall_cons; split; [reflexivity|]);
    rewrite ?Forall_app; repeat split; try done; by repeat constructor.
Qed.

End OrderFacts.

Section OrderClaims.
Context `{Network} {Image : Type} `{Imaging Image}.

(** C7 (as amended).  For a game with no cached file whose artwork is
    found, one turn of the driver does, in this order: the progress
    signals, the check for the backup and for the working file, the
    requests of the resolver, the write of the working file, the write
    of the backup, and then the overlay pass, whose only effect is one
    more write of the working file (none if composing fails).  So the
    working file is written before the backup, and both before the
    overlay pass touches the working file. *)
Theorem fresh_download_writes_working_then_backup
    (user : User) (overlays : gmap string Image) (game : Game) (i total : nat)
    (s : Sys) (resp : Response) (fromSearch : bool) :
  fs s !! backupPath game user = None ->
  fs s !! workingPath game user = None ->
  resolveResult game = (Some resp, fromSearch, None) ->
  let wk := workingPath game user in
  let bk := backupPath game user in
  let events := eventsSince s (processGame user overlays game i total s).2 in
  let overlayEvents :=
    match overlayTags (Tags game) overlays (Body resp) with
    | (buf, None) => [EvWriteFile wk buf]
    | (_, Some _) => []
    end in
  events =
    [EvProgress (i * 100 / total);
     EvDescription ("Processing " +:+ progressName game +:+ " (" +:+ itoa i
                    +:+ "/" +:+ itoa total +:+ ")")]
    ++ [EvStat bk; EvStat wk]
    ++ resolveEvents game
    ++ [EvWriteFile wk (Body resp); EvWriteFile bk (Body resp)]
    ++ overlayEvents
  /\ resolveEvents game <> []
  /\ Forall (fun e => isGet e = true) (resolveEvents game)
  /\ writtenBefore wk bk events = true
  /\ writtenBefore bk wk events = false.
Proof.
  intros Eb Ew R wk bk events overlayEvents.
  destruct (resolveEvents_gets game) as [NE G].
  assert (events =
    [EvProgress (i * 100 / total);
     EvDescription ("Processing " +:+ progressName game +:+ " (" +:+ itoa i
                    +:+ "/" +:+ itoa total +:+ ")")]
    ++ [EvStat bk; EvStat wk]
    ++ resolveEvents game
    ++ [EvWriteFile wk (Body resp); EvWriteFile bk (Body resp)]
    ++ overlayEvents) as E.
  { subst events overlayEvents. unfold processGame.
    rewrite bind_run. cbn [emit fst snd]. rewrite bind_run. cbn [emit fst snd].
    rewrite bind_run.
    rewrite (DownloadImage_fresh_found game user _ resp fromSearch) by done.
    cbn [fst snd negb]. rewrite bind_run, ApplyOverlay_run.
    cbn [ImageBytes ImagePath setImageBytes setImagePath Tags fs trace].
    destruct (String.eqb_spec (workingPath game user) "") as [E|_];
      [by apply filepath_Join_nonempty in E|].
    fold wk bk.
    destruct (overlayTags (Tags game) overlays (Body resp)) as [buf [e|]].
    - cbn. unfold eventsSince. cbn. rewrite <- !app_assoc.
      by rewrite drop_app_length.
    - rewrite lookup_insert_ne by (intros X; by apply (working_neq_backup game user)).
      rewrite lookup_insert_eq. cbn. unfold eventsSince. cbn.
      rewrite <- !app_assoc. rewrite drop_app_length. cbn.
      by rewrite <- !app_assoc. }
  split; [exact E|]. split; [exact NE|]. split; [exact G|].
  assert (Forall (fun e => isWrite e = false)
            ([EvProgress (i * 100 / total);
              EvDescription ("Processing " +:+ progressName game +:+ " (" +:+ itoa i
                    +:+ "/" +:+ itoa total +:+ ")"); EvStat bk; EvStat wk]
             ++ resolveEvents game)) as NW.
  { apply Forall_app. split; [by repeat constructor|].
    eapply Forall_impl; [exact G|]. by intros []. }
  assert (wk <> bk) as N by apply working_neq_backup.
  assert (events = ([EvProgress (i * 100 / total);
              EvDescription ("Processing " +:+ progressName game +:+ " (" +:+ itoa i
                    +:+ "/" +:+ itoa total +:+ ")"); EvStat bk; EvStat wk]
             ++ resolveEvents game)
             ++ [EvWriteFile wk (Body resp); EvWriteFile bk (Body resp)]
             ++ overlayEvents) as E'.
  { rewrite E. reflexivity. }
  unfold writtenBefore. rewrite E', !(firstWrite_skip _ _ _ NW).
  cbn [app firstWrite]. rewrite String.eqb_refl.
  destruct (String.eqb_spec wk bk) as [|_]; [done|].
  destruct (String.eqb_spec bk wk) as [|_]; [done|].
  rewrite String.eqb_refl. cbn [fmap option_fmap option_map].
  split.
  - apply Nat.ltb_lt. lia.
  - apply Nat.ltb_ge. lia.
Qed.

End OrderClaims.

Lemma fresh_download_writes_working_then_backup_witness :
  writtenBefore Demo.tf2Working Demo.tf2Backup
    (eventsSince Demo.emptySys
       (@processGame Demo.netPrimary Demo.Picture Demo.pictures Demo.alice
          Demo.overlays Demo.tf2 1 1 Demo.emptySys).2) = true.
Proof.
  apply (@fresh_download_writes_working_then_backup Demo.netPrimary Demo.Picture
           Demo.pictures Demo.alice Demo.overlays Demo.tf2 1 1 Demo.emptySys
           (mkResponse 200 "200 OK" "JPEG-1" None) false).
  - reflexivity.
  - reflexivity.
  - reflexivity.
Defined.

(** C7 (as stated) fails: on an empty cache with the primary CDN
    serving the image, the working file is written first and the backup
    second. *)
Lemma backup_before_working_counterexample :
  let events :=
    trace (@processGame Demo.netPrimary Demo.Picture Demo.pictures Demo.alice
             Demo.overlays Demo.tf2 1 1 Demo.emptySys).2 in
  events =
    [EvProgress 100; EvDescription "Processing Team Fortress 2 (1/1)";
     EvStat Demo.tf2Backup; EvStat Demo.tf2Working; EvGet Demo.tf2Akamai;
     EvWriteFile Demo.tf2Working "JPEG-1"; EvWriteFile Demo.tf2Backup "JPEG-1";
     EvWriteFile Demo.tf2Working "JPEG-1+A+F"]
  /\ writtenBefore Demo.tf2Backup Demo.tf2Working events = false.
Proof. vm_compute. split; reflexivity. Qed.

(** ** The final report *)













(** ** More on names: case, plural and extension *)







Lemma append_nil_r (s : string) : s +:+ "" = s.
Proof. induction s as [|c r IH]; [done|]. by rewrite append_cons, IH. Qed.

Lemma length_append (a b : string) :
  String.length (a +:+ b) = String.length a + String.length b.
Proof. induction a as [|c r IH]; [done|]. rewrite append_cons. cbn. by rewrite IH. Qed.

Lemma substring_prefix (a b : string) :
  String.substring 0 (String.length a) (a +:+ b) = a.
Proof.
  induction a as [|c r IH]; [by destruct b|].
  rewrite append_cons. cbn. by rewrite IH.
Qed.

Lemma substring_suffix (a b : string) :
  String.substring (String.length a) (String.length b) (a +:+ b) = b.
Proof.
  induction a as [|c r IH].
  - rewrite append_nil_l. cbn [String.length].
    induction b as [|d u IHu]; [done|]. cbn. by rewrite IHu.
  - rewrite append_cons. by cbn.
Qed.

Lemma strings_TrimSuffix_append (stem suffix : string) :
  strings_TrimSuffix (stem +:+ suffix) suffix = stem.
Proof.
  unfold strings_TrimSuffix, strings_HasSuffix. rewrite length_append.
  replace (String.length stem + String.length suffix - String.length suffix)
    with (String.length stem) by lia.
  rewrite substring_suffix, String.eqb_refl, substring_prefix.
  by destruct (Nat.leb_spec (String.length suffix) (String.length stem + String.length suffix)); [|lia].
Qed.

Lemma filepath_Ext_no_dot (name : string) :
  inCutset "." name = false -> filepath_Ext name = "".
Proof.
  induction name as [|c r IH]; [done|]. cbn [inCutset filepath_Ext].
  rewrite Ascii.eqb_sym. intros [C R]%orb_false_elim. rewrite (IH R), C.
  by destruct (hasSeparator r).
Qed.

Lemma filepath_Ext_last_dot (stem ext : string) :
  inCutset "." ext = false -> hasSeparator ext = false ->
  filepath_Ext (stem +:+ String "." ext) = String "." ext.
Proof.
  intros D S. induction stem as [|c r IH].
  - rewrite append_nil_l. cbn [filepath_Ext]. by rewrite S, (filepath_Ext_no_dot _ D).
  - rewrite append_cons. cbn [filepath_Ext]. rewrite IH.
    destruct (hasSeparator (r +:+ _)); reflexivity.
Qed.

(** X2.  The name an overlay file is stored under does not depend on
    its extension: for a file "stem.ext", where ext holds neither a dot
    nor a slash, it is the normalised stem; a file name without any dot
    is normalised as a whole. *)
Theorem overlay_name_ignores_extension (stem ext : string) :
  inCutset "." ext = false -> hasSeparator ext = false ->
  overlayName (stem +:+ String "." ext) = normalizeName stem
  /\ overlayName ext = normalizeName ext.
Proof.
  intros D S. unfold overlayName. split.
  - rewrite (filepath_Ext_last_dot _ _ D S).
    by rewrite strings_TrimSuffix_append.
  - rewrite (filepath_Ext_no_dot _ D).
    pose proof (strings_TrimSuffix_append ext "") as T.
    rewrite append_nil_r in T. by rewrite T.
Qed.

Lemma overlay_name_ignores_extension_witness :
  overlayName "Favorites.jpg" = normalizeName "Favorites".
Proof.
  apply (overlay_name_ignores_extension "Favorites" "jpg"); reflexivity.
Defined.

(** ** More on the resolver *)

Section ResolverExtras.
Context `{Network}.

Lemma searchEvents_length name : length (searchEvents name) <= 1.
Proof.
  unfold searchEvents, getGoogleImage. destruct (String.eqb name ""); [cbn; lia|].
  io_unfold. cbn. destruct (http_Get _) as [e|r]; cbn; [lia|].
  destruct (BodyErr r); cbn; [lia|].
  destruct (searchPattern_FindStringSubmatch _) as [[? ?]|]; cbn; lia.
Qed.

(** X3.  A resolution makes between one and four requests and nothing
    else: the first goes to the primary CDN, the second, if any, to the
    secondary CDN, and the disk is left as it is. *)
Theorem resolver_requests (game : Game) (s : Sys) :
  let events := eventsSince s (getImageAlternatives game s).2 in
  Forall (fun e => isGet e = true) events
  /\ 1 <= length events <= 4
  /\ (events = [EvGet (akamaiUrl (Id game))]
      \/ exists rest,
           events = EvGet (akamaiUrl (Id game)) :: EvGet (steamCdnUrl (Id game)) :: rest)
  /\ fs (getImageAlternatives game s).2 = fs s.
Proof.
  intros events. subst events. rewrite getImageAlternatives_run.
  cbn [snd]. rewrite eventsSince_logged.
  destruct (resolveEvents_gets game) as [_ G]. split; [exact G|].
  split; [|split; [|done]].
  - unfold resolveEvents. rewrite getImageAlternatives_cases. cbv zeta.
    pose proof (searchEvents_length (Name game)).
    repeat match goal with |- context [if ?b then _ else _] => destruct b end;
      unfold logged, blank; cbn [snd trace app length]; rewrite ?length_app;
      cbn [length]; lia.
  - unfold resolveEvents. rewrite getImageAlternatives_cases. cbv zeta.
    repeat match goal with |- context [if ?b then _ else _] => destruct b end;
      unfold logged, blank; cbn [snd trace app]; eauto.
Qed.

(** X4.  The only error [getImageAlternatives] ever returns is the one
    of the search request: it comes with no response and the search flag
    set, only for a game with a display name, and only after both CDNs
    gave nothing. *)
Theorem resolver_error_is_the_search_error
    (game : Game) (s : Sys) (response : option Response) (fromSearch : bool) (e : error) :
  (getImageAlternatives game s).1 = (response, fromSearch, Some e) ->
  Name game <> ""
  /\ response = None /\ fromSearch = true
  /\ (searchResult (Name game)).2 = Some e
  /\ succeeded (downloadResult (akamaiUrl (Id game))) = false
  /\ succeeded (downloadResult (steamCdnUrl (Id game))) = false.
Proof.
  rewrite getImageAlternatives_cases. cbv zeta.
  destruct (succeeded (downloadResult (akamaiUrl (Id game)))) eqn:S1.
  { apply downloadResult_succeeded in S1 as (r & -> & _). cbn. congruence. }
  destruct (succeeded (downloadResult (steamCdnUrl (Id game)))) eqn:S2.
  { apply downloadResult_succeeded in S2 as (r & -> & _). cbn. congruence. }
  destruct (searchResult (Name game)) as [url se] eqn:G. cbn [fst snd].
  destruct se as [se|]; cbn [isNil negb].
  - cbn. intros [= R F ->]. subst.
    repeat split; try done.
    + intros N. unfold searchResult, getGoogleImage in G. rewrite N in G. by cbn in G.
    + destruct (downloadResult (steamCdnUrl (Id game))) as [[r|] e'] eqn:D; [|done].
      pose proof (downloadResult_response (steamCdnUrl (Id game)) r) as X.
      rewrite D in X. cbn in X. rewrite X in S2; done.
  - destruct (succeeded (downloadResult url)) eqn:S3; [|cbn; congruence].
    apply downloadResult_succeeded in S3 as (r & -> & _). cbn. congruence.
Qed.
End ResolverExtras.

Lemma resolver_error_is_the_search_error_witness :
  Name Demo.tf2 <> ""
  /\ is_Some (@searchResult Scenes.netSearchDown (Name Demo.tf2)).2.
Proof.
  edestruct (@resolver_error_is_the_search_error Scenes.netSearchDown Demo.tf2
               Demo.emptySys) as (N & _ & _ & S & _).
  - reflexivity.
  - split; [exact N|]. rewrite S. eauto.
Defined.

Section NamelessExtras.
Context `{Network}.

(** X5.  For a game without display name whose two CDN downloads give
    nothing, no search request is made, but the download of the empty
    URL is still attempted as third request; the answer to it decides
    between a search-flagged response and not found. *)
Theorem resolver_without_name (game : Game) (s : Sys) :
  Name game = "" ->
  succeeded (downloadResult (akamaiUrl (Id game))) = false ->
  succeeded (downloadResult (steamCdnUrl (Id game))) = false ->
  getImageAlternatives game s =
    ((if succeeded (downloadResult "")
      then ((downloadResult "").1, true, None)
      else (None, false, None)),
     logged s [EvGet (akamaiUrl (Id game)); EvGet (steamCdnUrl (Id game)); EvGet ""]).
Proof.
  intros N S1 S2. rewrite getImageAlternatives_cases. cbv zeta. rewrite S1, S2.
  assert (searchResult (Name game) = ("", None)) as G
    by (unfold searchResult, getGoogleImage; by rewrite N).
  assert (searchEvents (Name game) = []) as E
    by (unfold searchEvents, getGoogleImage; by rewrite N).
  rewrite G, E. cbn [fst snd isNil negb app].
  destruct (succeeded (downloadResult "")) eqn:S3; [|done].
  by apply downloadResult_succeeded in S3 as (r & -> & _).
Qed.

End NamelessExtras.

Lemma resolver_without_name_witness :
  @getImageAlternatives Demo.netNoArtwork Demo.nameless Demo.emptySys =
    ((None, false, None),
     mkSys ∅ [EvGet "https://steamcdn-a.akamaihd.net/steam/apps/42/header.jpg";
              EvGet "http://cdn.steampowered.com/v/gfx/apps/42/header.jpg";
              EvGet ""]).
Proof.
  apply (@resolver_without_name Demo.netNoArtwork Demo.nameless Demo.emptySys);
    reflexivity.
Defined.

(** ** More on the image cache *)

Section CacheExtras.
Context `{Network}.

Lemma DownloadImage_fields game user s :
  Name (DownloadImage game user s).1.1 = Name game
  /\ Tags (DownloadImage game user s).1.1 = Tags game.
Proof.
  unfold DownloadImage.
  rewrite bind_run, os_Stat_run. cbn [fst snd].
  destruct (fs s !! backupPath game user) as [nb|]; cbn [isNil].
  - rewrite bind_run. by destruct (ioutil_ReadFile _ _) as [[? ?] ?].
  - rewrite bind_run, os_Stat_run. cbn [fst snd].
    destruct (fs (logged s _) !! workingPath game user) as [nw|]; cbn [isNil].
    + rewrite bind_run. destruct (ioutil_ReadFile _ _) as [[? e] ?]. cbn.
      destruct e; cbn; [done|]. rewrite bind_run.
      by destruct (ioutil_WriteFile _ _ _).
    + rewrite bind_run. destruct (getImageAlternatives _ _) as [[[r f] e] s1]. cbn.
      destruct r as [r|]; [|done]. destruct e; cbn; [done|].
      rewrite bind_run. destruct (ioutil_WriteFile _ _ _) as [e s2]. cbn.
      destruct e; cbn; [done|]. rewrite bind_run.
      by destruct (ioutil_WriteFile _ _ _).
Qed.

(** The outcomes of [DownloadImage], by the state of the cache. *)
Lemma DownloadImage_cases game user s :
  let wk := workingPath game user in
  let bk := backupPath game user in
  let g := setImagePath game wk in
  DownloadImage game user s =
    match fs s !! bk with
    | Some (File b) =>
        ((setImageBytes g (Some b), (true, false, None)),
         logged s [EvStat bk; EvReadFile bk])
    | Some (Directory _) =>
        ((setImageBytes g None, (true, false, Some ("read " +:+ bk +:+ ": is a directory"))),
         logged s [EvStat bk; EvReadFile bk])
    | None =>
        match fs s !! wk with
        | Some (File b) =>
            ((setImageBytes g (Some b), (true, false, None)),
             mkSys (<[bk := File b]> (fs s))
                   (trace s ++ [EvStat bk; EvStat wk; EvReadFile wk; EvWriteFile bk b]))
        | Some (Directory _) =>
            ((g, (true, false, Some ("read " +:+ wk +:+ ": is a directory"))),
             logged s [EvStat bk; EvStat wk; EvReadFile wk])
        | None =>
            match resolveResult game with
            | (Some resp, fromSearch, None) =>
                ((setImageBytes g (Some (Body resp)), (true, fromSearch, None)),
                 mkSys (<[bk := File (Body resp)]> (<[wk := File (Body resp)]> (fs s)))
                       (trace s ++ [EvStat bk; EvStat wk] ++ resolveEvents game
                          ++ [EvWriteFile wk (Body resp); EvWriteFile bk (Body resp)]))
            | (_, _, err) =>
                ((g, (false, false, err)),
                 logged s ([EvStat bk; EvStat wk] ++ resolveEvents game))
            end
        end
    end.
Proof.
  intros wk bk g. subst wk bk g.
  destruct (fs s !! backupPath game user) as [[b|l]|] eqn:Eb.
  - by apply DownloadImage_backup.
  - unfold DownloadImage.
    rewrite bind_run, os_Stat_run. cbn. rewrite Eb. cbn.
    rewrite bind_run, ioutil_ReadFile_run. cbn. rewrite Eb. cbn.
    by rewrite logged_logged.
  - destruct (fs s !! workingPath game user) as [[b|l]|] eqn:Ew.
    + by apply DownloadImage_working.
    + unfold DownloadImage.
      rewrite bind_run, os_Stat_run. cbn. rewrite Eb. cbn.
      rewrite bind_run, os_Stat_run. cbn. rewrite Ew. cbn.
      rewrite bind_run, ioutil_ReadFile_run. cbn. rewrite Ew. cbn.
      unfold logged. cbn. by rewrite <- ?app_assoc.
    + destruct (resolveResult game) as [[[resp|] f] [e|]] eqn:R.
      * unfold DownloadImage.
        rewrite bind_run, os_Stat_run. cbn. rewrite Eb. cbn.
        rewrite bind_run, os_Stat_run. cbn. rewrite Ew. cbn.
        rewrite bind_run, getImageAlternatives_run, resolveResult_setImagePath, R. cbn.
        rewrite resolveEvents_setImagePath. unfold logged. cbn.
        by rewrite <- ?app_assoc.
      * by apply DownloadImage_fresh_found.
      * by apply (DownloadImage_fresh_none _ _ _ f).
      * by apply (DownloadImage_fresh_none _ _ _ f).
Qed.
End CacheExtras.

Section CacheExtras2.
Context `{Network}.

(** X6.  [DownloadImage] changes no path other than the working file
    and the backup file of the game, writes to no other path, and removes
    nothing from the disk. *)
Theorem DownloadImage_writes_only_its_files (game : Game) (user : User) (s : Sys) :
  let out := DownloadImage game user s in
  (forall p, p <> workingPath game user -> p <> backupPath game user ->
             fs out.2 !! p = fs s !! p)
  /\ (forall p data, EvWriteFile p data ∈ eventsSince s out.2 ->
                     p = workingPath game user \/ p = backupPath game user)
  /\ (forall p, is_Some (fs s !! p) -> is_Some (fs out.2 !! p)).
Proof.
  intros out. subst out. rewrite DownloadImage_cases. cbv zeta.
  assert (forall p data (l : list Event),
            Forall (fun e => isWrite e = false) l -> EvWriteFile p data ∉ l) as NW.
  { intros p data l F E. rewrite Forall_forall in F. by specialize (F _ E). }
  assert (Forall (fun e => isWrite e = false) (resolveEvents game)) as RG.
  { destruct (resolveEvents_gets game) as [_ G].
    eapply Forall_impl; [exact G|]. by intros []. }
  destruct (fs s !! backupPath game user) as [[b|l]|] eqn:Eb; cbn [snd].
  1,2: rewrite eventsSince_logged; unfold logged; cbn [fs]; (split; [done|split; [|done]]);
       intros p data E; exfalso; revert E; apply NW; by repeat constructor.
  destruct (fs s !! workingPath game user) as [[b|l]|] eqn:Ew; cbn [snd].
  - rewrite eventsSince_app. cbn [fs]. repeat split.
    + intros p _ N. by rewrite lookup_insert_ne.
    + intros p data E. repeat (apply elem_of_cons in E as [E|E]; [try discriminate E|]).
      * injection E as -> _. by right.
      * by apply elem_of_nil in E.
    + intros p [n P]. destruct (decide (backupPath game user = p)) as [<-|N].
      * rewrite lookup_insert_eq. eauto.
      * rewrite lookup_insert_ne by done. eauto.
  - rewrite eventsSince_logged; unfold logged; cbn [fs]; (split; [done|split; [|done]]).
    intros p data E; exfalso; revert E; apply NW; by repeat constructor.
  - assert (forall r f e,
      let out := ((setImagePath game (workingPath game user), (false, false, e)) : Game * (bool * bool * option error),
                  logged s ([EvStat (backupPath game user); EvStat (workingPath game user)]
                              ++ resolveEvents game)) in
      resolveResult game = (r, f, e) ->
      (forall p, p <> workingPath game user -> p <> backupPath game user ->
             fs out.2 !! p = fs s !! p)
      /\ (forall p data, EvWriteFile p data ∈ eventsSince s out.2 ->
                     p = workingPath game user \/ p = backupPath game user)
      /\ (forall p, is_Some (fs s !! p) -> is_Some (fs out.2 !! p))) as Fail.
    { intros r f e out _. subst out. cbn [snd]. rewrite eventsSince_logged.
      unfold logged; cbn [fs]. (split; [done|split; [|done]]).
      intros p data E; exfalso; revert E; apply NW.
      apply Forall_app. split; [by repeat constructor|done]. }
    destruct (resolveResult game) as [[[resp|] f] [e|]] eqn:R;
      [by eapply Fail| |by eapply Fail|by eapply Fail].
    cbn [snd fs]. rewrite eventsSince_app. repeat split.
    + intros p N1 N2. by rewrite !lookup_insert_ne.
    + intros p data E. apply elem_of_app in E as [E|E].
      { repeat (apply elem_of_cons in E as [E|E]; [discriminate E|]).
        by apply elem_of_nil in E. }
      apply elem_of_app in E as [E|E]; [exfalso; revert E; by apply NW|].
      repeat (apply elem_of_cons in E as [E|E]; [injection E as -> _; eauto|]).
      by apply elem_of_nil in E.
    + intros p [n P].
      destruct (decide (backupPath game user = p)) as [<-|N1];
        [rewrite lookup_insert_eq; eauto|rewrite lookup_insert_ne by done].
      destruct (decide (workingPath game user = p)) as [<-|N2];
        [rewrite lookup_insert_eq; eauto|rewrite lookup_insert_ne by done]. eauto.
Qed.

Lemma DownloadImage_not_found
    (game : Game) (user : User) (s : Sys) (g' : Game) (fromSearch : bool)
    (err : option error) (s' : Sys) :
  DownloadImage game user s = ((g', (false, fromSearch, err)), s') ->
  s' = logged s ([EvStat (backupPath game user); EvStat (workingPath game user)]
                  ++ resolveEvents game)
  /\ fs s' = fs s
  /\ fromSearch = false
  /\ fs s !! backupPath game user = None
  /\ fs s !! workingPath game user = None
  /\ eventsSince s s' =
       [EvStat (backupPath game user); EvStat (workingPath game user)]
       ++ resolveEvents game
  /\ ImageBytes g' = ImageBytes game.
Proof.
  rewrite DownloadImage_cases. cbv zeta.
  destruct (fs s !! backupPath game user) as [[b|l]|] eqn:Eb; [done..|].
  destruct (fs s !! workingPath game user) as [[b|l]|] eqn:Ew; [done..|].
  destruct (resolveResult game) as [[[resp|] f] [e|]] eqn:R; [|done|..];
    intros [= <- <- <- <-]; by rewrite eventsSince_logged.
Qed.

(** X7.  When [DownloadImage] reports the game as not found, the game
    had neither backup nor working file, the network was asked, the disk
    is as before, the search flag is false and the game holds the bytes
    it held. *)
Theorem DownloadImage_not_found_leaves_disk
    (game : Game) (user : User) (s : Sys) (g' : Game) (fromSearch : bool)
    (err : option error) (s' : Sys) :
  DownloadImage game user s = ((g', (false, fromSearch, err)), s') ->
  s' = logged s ([EvStat (backupPath game user); EvStat (workingPath game user)]
                  ++ resolveEvents game)
  /\ fs s' = fs s
  /\ fromSearch = false
  /\ fs s !! backupPath game user = None
  /\ fs s !! workingPath game user = None
  /\ eventsSince s s' =
       [EvStat (backupPath game user); EvStat (workingPath game user)]
       ++ resolveEvents game
  /\ ImageBytes g' = ImageBytes game.
Proof. apply DownloadImage_not_found. Qed.
End CacheExtras2.

Lemma DownloadImage_not_found_leaves_disk_witness :
  fs (@DownloadImage Demo.netNoArtwork Demo.nameless Demo.alice Demo.emptySys).2
    = fs Demo.emptySys.
Proof.
  destruct (@DownloadImage_not_found_leaves_disk Demo.netNoArtwork Demo.nameless
              Demo.alice Demo.emptySys
              (setImagePath Demo.nameless "/steam/userdata/1/config/grid/42.jpg")
              false None
              (@DownloadImage Demo.netNoArtwork Demo.nameless Demo.alice Demo.emptySys).2)
    as (_ & F & _).
  - vm_compute. reflexivity.
  - exact F.
Defined.

Lemma DownloadImage_found_is_cached
    (net1 net2 : Network) (game game2 : Game) (user : User) (s s' : Sys)
    (g' : Game) (fromSearch : bool) :
  @DownloadImage net1 game user s = ((g', (true, fromSearch, None)), s') ->
  Id game2 = Id game ->
  exists b,
    ImageBytes g' = Some b
    /\ fs s' !! backupPath game user = Some (File b)
    /\ @DownloadImage net2 game2 user s' =
         ((setImageBytes (setImagePath game2 (workingPath game user)) (Some b),
           (true, false, None)),
          logged s' [EvStat (backupPath game user); EvReadFile (backupPath game user)]).
Proof.
  intros D I. destruct (paths_of_Id game game2 user I) as [W K].
  assert (exists b, ImageBytes g' = Some b
                    /\ fs s' !! backupPath game user = Some (File b)) as (b & B & F).
  { revert D. rewrite (@DownloadImage_cases net1). cbv zeta.
    destruct (fs s !! backupPath game user) as [[b|l]|] eqn:Eb; [| done |].
    - intros [= <- _ <-]. exists b. by split.
    - destruct (fs s !! workingPath game user) as [[b|l]|] eqn:Ew; [| done |].
      + intros [= <- _ <-]. exists b. split; [done|]. cbn. apply lookup_insert_eq.
      + destruct (@resolveResult net1 game) as [[[resp|] f] [e|]]; try done.
        intros [= <- _ <-]. exists (Body resp). split; [done|]. cbn.
        apply lookup_insert_eq. }
  exists b. split; [done|]. split; [done|].
  rewrite <- K in F. rewrite (@DownloadImage_backup net2 game2 user s' b F).
  by rewrite W, K.
Qed.

(** X8.  After [DownloadImage] returned found without error, the backup
    file holds exactly the bytes the game holds; and a later
    [DownloadImage] for the same id, on any network, returns these bytes
    as found, without the search flag, after a stat and a read of the
    backup only. *)
Theorem resolved_artwork_is_cached
    (net1 net2 : Network) (game game2 : Game) (user : User) (s s' : Sys)
    (g' : Game) (fromSearch : bool) :
  @DownloadImage net1 game user s = ((g', (true, fromSearch, None)), s') ->
  Id game2 = Id game ->
  exists b,
    ImageBytes g' = Some b
    /\ fs s' !! backupPath game user = Some (File b)
    /\ @DownloadImage net2 game2 user s' =
         ((setImageBytes (setImagePath game2 (workingPath game user)) (Some b),
           (true, false, None)),
          logged s' [EvStat (backupPath game user); EvReadFile (backupPath game user)]).
Proof. apply DownloadImage_found_is_cached. Qed.

Lemma resolved_artwork_is_cached_witness :
  exists b,
    fs (@DownloadImage Demo.netPrimary Demo.tf2 Demo.alice Demo.emptySys).2
      !! Demo.tf2Backup = Some (File b)
    /\ (@DownloadImage Scenes.netProfileDown Demo.tf2 Demo.alice
          (@DownloadImage Demo.netPrimary Demo.tf2 Demo.alice Demo.emptySys).2).1.2
       = (true, false, None).
Proof.
  destruct (@resolved_artwork_is_cached Demo.netPrimary Scenes.netProfileDown
              Demo.tf2 Demo.tf2 Demo.alice Demo.emptySys
              (@DownloadImage Demo.netPrimary Demo.tf2 Demo.alice Demo.emptySys).2
              (@DownloadImage Demo.netPrimary Demo.tf2 Demo.alice Demo.emptySys).1.1
              false) as (b & _ & F & D).
  - vm_compute. reflexivity.
  - reflexivity.
  - exists b. split; [exact F|]. by rewrite D.
Defined.

(** ** More on the turns of the driver *)

Section TurnFacts.
Context `{Network} {Image : Type} `{Imaging Image}.

Lemma processGame_run user (overlays : gmap string Image) game i total s :
  processGame user overlays game i total s =
    let d := DownloadImage game user (logged s (progressEvents game i total)) in
    match d.1.2 with
    | (_, _, Some e) => (TurnExit e, d.2)
    | (false, _, None) => (TurnNotFound d.1.1, d.2)
    | (true, fromSearch, None) =>
        let a := ApplyOverlay d.1.1 overlays d.2 in
        match a.1.2 with
        | Some e => (TurnExit e, a.2)
        | None => (TurnDone a.1.1 fromSearch, a.2)
        end
    end.
Proof.
  unfold processGame. rewrite bind_run. cbn [emit fst snd].
  rewrite bind_run. cbn [emit fst snd fs trace]. rewrite bind_run.
  assert ({| fs := fs s;
             trace := (trace s ++ [EvProgress (i * 100 / total)]) ++
               [EvDescription ("Processing " +:+ progressName game +:+ " (" +:+ itoa i
                  +:+ "/" +:+ itoa total +:+ ")")] |}
          = logged s (progressEvents game i total)) as ->.
  { unfold logged, progressEvents. by rewrite <- app_assoc. }
  cbv zeta.
  destruct (DownloadImage game user _) as [[g [[found f] e]] s1]. cbn [fst snd].
  destruct e as [e|]; [by destruct found|]. destruct found; cbn [negb]; [|reflexivity].
  rewrite bind_run. destruct (ApplyOverlay g overlays s1) as [[g2 e2] s2]. cbn.
  destruct e2; reflexivity.
Qed.
End TurnFacts.

(** X9.  A turn of the driver that ended well can be repeated: a second
    turn for the same id and tags with the same overlays, on any
    network, ends well too, makes no request, leaves every file as the
    first turn left it and gives the game the same bytes. *)
Theorem processGame_twice
    (net1 net2 : Network) (Image : Type) (img : Imaging Image)
    (user : User) (overlays : gmap string Image) (game game2 : Game)
    (i total i2 total2 : nat) (s s1 : Sys) (g1 : Game) (fromSearch : bool) :
  @processGame net1 Image img user overlays game i total s = (TurnDone g1 fromSearch, s1) ->
  Id game2 = Id game -> Tags game2 = Tags game ->
  exists g2 s2,
    @processGame net2 Image img user overlays game2 i2 total2 s1 = (TurnDone g2 false, s2)
    /\ fs s2 = fs s1
    /\ ImageBytes g2 = ImageBytes g1
    /\ Forall (fun e => isGet e = false) (eventsSince s1 s2).
Proof.
  intros P I T. rewrite processGame_run in P. cbv zeta in P.
  destruct (@DownloadImage net1 game user (logged s (progressEvents game i total)))
    as [[g [[found f] e]] s0] eqn:D. cbn [fst snd] in P.
  destruct e as [e|]; [by destruct found|]. destruct found; [|done].
  destruct (DownloadImage_found_is_cached net1 net2 game game2 user _ _ _ _ D I)
    as (b & B & F & _).
  destruct (@DownloadImage_game net1 game user (logged s (progressEvents game i total)))
    as [Ig Pg].
  destruct (@DownloadImage_fields net1 game user (logged s (progressEvents game i total)))
    as [_ Tg].
  rewrite D in Ig, Pg, Tg. cbn [fst snd] in Ig, Pg, Tg.
  rewrite ApplyOverlay_run, B, Pg in P.
  destruct (String.eqb_spec (workingPath game user) "") as [E|_];
    [by apply filepath_Join_nonempty in E|].
  rewrite Tg in P.
  destruct (overlayTags (Tags game) overlays b) as [buf [e|]] eqn:O; [done|].
  destruct (fs s0 !! workingPath game user) as [[d|l]|] eqn:W; [|done|];
    cbn [fst snd] in P; injection P as <- _ <-.
  all: destruct (paths_of_Id game game2 user I) as [W2 K2].
  all: rewrite processGame_run; cbv zeta.
  all: rewrite <- K2 in F.
  all: match goal with |- context [@DownloadImage ?n ?g ?u ?st] =>
         assert (fs st !! backupPath g u = Some (File b)) as F2
           by (unfold logged; cbn [fs]; rewrite lookup_insert_ne;
               [exact F | rewrite K2; apply working_neq_backup]);
         rewrite (@DownloadImage_backup n g u st b F2)
       end.
  all: cbn [fst snd]; rewrite ApplyOverlay_run.
  all: cbn [ImageBytes ImagePath Tags setImageBytes setImagePath]; rewrite W2, T, O.
  all: destruct (String.eqb_spec (workingPath game user) "") as [E|_];
         [by apply filepath_Join_nonempty in E|].
  all: unfold logged; cbn [fs trace]; rewrite lookup_insert_eq; cbn [fst snd].
  all: eexists _, _; split; [reflexivity|]; cbn [fs trace ImageBytes setImageBytes].
  all: split; [apply insert_insert_eq|]; split; [done|].
  all: unfold eventsSince; cbn [trace].
  all: match goal with |- Forall _ (drop (length ?t) (((?t ++ ?a) ++ ?b) ++ ?c)) =>
         replace (((t ++ a) ++ b) ++ c) with (t ++ (a ++ b ++ c))
           by (by rewrite <- !app_assoc);
         rewrite drop_app_length
       end.
  all: by repeat constructor.
Qed.

Lemma processGame_twice_witness :
  exists g2 s2,
    @processGame Scenes.netProfileDown Demo.Picture Demo.pictures Demo.alice
      Demo.overlays Demo.tf2 1 1
      (@processGame Demo.netPrimary Demo.Picture Demo.pictures Demo.alice
         Demo.overlays Demo.tf2 1 1 Demo.emptySys).2 = (TurnDone g2 false, s2)
    /\ fs s2 = fs (@processGame Demo.netPrimary Demo.Picture Demo.pictures Demo.alice
                     Demo.overlays Demo.tf2 1 1 Demo.emptySys).2.
Proof.
  destruct (processGame_twice Demo.netPrimary Scenes.netProfileDown Demo.Picture
              Demo.pictures Demo.alice Demo.overlays Demo.tf2 Demo.tf2 1 1 1 1
              Demo.emptySys
              (@processGame Demo.netPrimary Demo.Picture Demo.pictures Demo.alice
                 Demo.overlays Demo.tf2 1 1 Demo.emptySys).2
              (mkGame "440" "Team Fortress 2" ["Action"; "Favorite"] Demo.tf2Working
                 (Some "JPEG-1+A+F")) false) as (g2 & s2 & P & F & _).
  - vm_compute. reflexivity.
  - reflexivity.
  - reflexivity.
  - exists g2, s2. split; [exact P|exact F].
Defined.

Section DriverExtras.
Context `{Network} {Image : Type} `{Imaging Image}.

(** X10.  A turn that ends with the game not found writes nothing and
    leaves the disk as it is: no overlay is applied to such a game. *)
Theorem processGame_not_found
    (user : User) (overlays : gmap string Image) (game g' : Game)
    (i total : nat) (s s' : Sys) :
  processGame user overlays game i total s = (TurnNotFound g', s') ->
  fs s' = fs s
  /\ Forall (fun e => isWrite e = false) (eventsSince s s')
  /\ Id g' = Id game /\ ImageBytes g' = ImageBytes game
  /\ fs s !! backupPath game user = None
  /\ fs s !! workingPath game user = None
  /\ exists fromSearch, resolveResult game = (None, fromSearch, None).
Proof.
  rewrite processGame_run. cbv zeta.
  destruct (DownloadImage game user (logged s (progressEvents game i total)))
    as [[g [[found f] e]] s0] eqn:D. cbn [fst snd].
  destruct e as [e|]; [by destruct found|]. destruct found.
  { by destruct (ApplyOverlay g overlays s0) as [[? [?|]] ?]. }
  intros [= <- <-].
  pose proof (DownloadImage_game game user (logged s (progressEvents game i total))) as [I _].
  rewrite D in I. cbn in I.
  destruct (DownloadImage_not_found _ _ _ _ _ _ _ D)
    as (S0 & F & _ & B & W & E & Im).
  split; [done|]. split.
  - rewrite S0, logged_logged, eventsSince_logged.
    destruct (resolveEvents_gets game) as [_ G].
    repeat (apply Forall_cons; split; [done|]).
    eapply Forall_impl; [exact G|]. by intros [].
  - split; [done|]. split; [done|]. split; [done|]. split; [done|].
    revert D. rewrite DownloadImage_cases. cbv zeta.
    rewrite B, W.
    destruct (resolveResult game) as [[[r|] f'] [e|]]; try done. eauto.
Qed.


End DriverExtras.

Lemma processGame_not_found_witness :
  fs (@processGame Demo.netNoArtwork Demo.Picture Demo.pictures Demo.alice
        Demo.overlays Demo.nameless 1 1 Demo.emptySys).2 = fs Demo.emptySys.
Proof.
  destruct (@processGame_not_found Demo.netNoArtwork Demo.Picture Demo.pictures
              Demo.alice Demo.overlays Demo.nameless
              (setImagePath Demo.nameless "/steam/userdata/1/config/grid/42.jpg") 1 1
              Demo.emptySys
              (@processGame Demo.netNoArtwork Demo.Picture Demo.pictures Demo.alice
                 Demo.overlays Demo.nameless 1 1 Demo.emptySys).2) as (F & _).
  - vm_compute. reflexivity.
  - exact F.
Defined.


(** ** More on loading overlays *)

Section OverlayLoadExtras.
Context {Image : Type} `{Imaging Image}.

Lemma loadImage_run path s :
  loadImage path s =
    (match fs s !! path with
     | Some (File data) => image_Decode data
     | Some (Directory _) => inr ("read " +:+ path +:+ ": is a directory")
     | None => inr ("open " +:+ path +:+ ": no such file or directory")
     end, logged s [EvReadFile path]).
Proof.
  unfold loadImage. rewrite bind_run, ioutil_ReadFile_run. cbn [fst snd].
  by destruct (fs s !! path) as [[]|].
Qed.

(** Loading reads the listed files in order and does nothing else. *)
Lemma loadOverlayFiles_reads dir files :
  forall (m : gmap string Image) s,
  exists n, n <= length files
    /\ (loadOverlayFiles dir files m s).2
       = logged s (map (fun f => EvReadFile (filepath_Join dir f)) (take n files))
    /\ ((loadOverlayFiles dir files m s).1.2 = None -> n = length files).
Proof.
  induction files as [|file rest IH]; intros m s.
  - exists 0. cbn. by rewrite logged_nil.
  - cbn [loadOverlayFiles]. rewrite bind_run, loadImage_run. cbn [fst snd].
    destruct (match fs s !! filepath_Join dir file with
              | Some (File data) => image_Decode data
              | Some (Directory _) => _
              | None => _
              end) as [img|e].
    + destruct (IH (<[overlayName file := img]> m)
                   (logged s [EvReadFile (filepath_Join dir file)])) as (n & L & E & N).
      exists (S n). split; [cbn; lia|]. split.
      * rewrite E, logged_logged. reflexivity.
      * intros X. cbn. f_equal. by apply N.
    + exists 1. split; [cbn; lia|]. split; [reflexivity|done].
Qed.

Lemma loadOverlayFiles_other dir files :
  forall (m m' : gmap string Image) s s' err k,
  loadOverlayFiles dir files m s = ((m', err), s') ->
  (forall f, f ∈ files -> overlayName f <> k) ->
  m' !! k = m !! k.
Proof.
  induction files as [|file rest IH]; intros m m' s s' err k E N.
  - cbn in E. by injection E as <- _ _.
  - cbn [loadOverlayFiles] in E. rewrite bind_run in E.
    destruct (loadImage (filepath_Join dir file) s) as [[img|e] s1]; cbn in E.
    + rewrite (IH _ _ _ _ _ k E).
      * rewrite lookup_insert_ne; [done|]. apply N, list_elem_of_here.
      * intros f F. by apply N, list_elem_of_further.
    + by injection E as <- _ _.
Qed.

(** X13.  When several overlay files have the same normalised name, the
    map holds the image of the last one in the order of the directory
    listing. *)
Theorem LoadOverlays_last_file_wins
    (dir : string) (before after : list string) (file : string)
    (s s' : Sys) (overlays : gmap string Image) :
  fs s !! dir = Some (Directory (before ++ file :: after)) ->
  LoadOverlays dir s = ((overlays, None), s') ->
  (forall f, f ∈ after -> overlayName f <> overlayName file) ->
  exists data img,
    fs s !! filepath_Join dir file = Some (File data)
    /\ image_Decode data = inl img
    /\ overlays !! overlayName file = Some img.
Proof.
  intros D L N. rewrite (LoadOverlays_listing _ _ _ D) in L.
  assert (fs (logged s [EvStat dir; EvReadDir dir]) = fs s) as F by done.
  clear D. revert L F. generalize (logged s [EvStat dir; EvReadDir dir]).
  generalize (∅ : gmap string Image).
  induction before as [|b rest IH]; intros m s0 L F.
  - cbn [app loadOverlayFiles] in L. rewrite bind_run, loadImage_run in L.
    cbn [fst snd] in L. rewrite F in L.
    destruct (fs s !! filepath_Join dir file) as [[data|l]|]; [|done..].
    destruct (image_Decode data) as [img|e] eqn:Dec; [|done].
    exists data, img. split; [done|]. split; [done|].
    rewrite (loadOverlayFiles_other _ _ _ _ _ _ _ _ L N). apply lookup_insert_eq.
  - cbn [app loadOverlayFiles] in L. rewrite bind_run, loadImage_run in L.
    cbn [fst snd] in L.
    destruct (match fs s0 !! filepath_Join dir b with
              | Some (File data) => image_Decode data
              | Some (Directory _) => _
              | None => _
              end) as [img|e]; [|done].
    by apply (IH _ _ L).
Qed.

(** X12.  [LoadOverlays] leaves the disk as it is and makes no request
    and no write; when the directory is missing it only stats it and
    returns an empty map without error, and when the path is a regular
    file it returns an empty map with an error. *)
Theorem LoadOverlays_only_reads (dir : string) (s : Sys) :
  let out := LoadOverlays dir s in
  fs out.2 = fs s
  /\ Forall (fun e => isRequestOrWrite e = false) (eventsSince s out.2)
  /\ (fs s !! dir = None ->
      out = ((∅, None), logged s [EvStat dir]))
  /\ (forall data, fs s !! dir = Some (File data) ->
      out.1.1 = ∅ /\ is_Some out.1.2).
Proof.
  intros out. subst out. unfold LoadOverlays.
  rewrite bind_run, os_Stat_run. cbn [fst snd].
  destruct (fs s !! dir) as [[data|files]|] eqn:D; cbn [isNil negb].
  - rewrite bind_run. unfold ioutil_ReadDir. io_unfold. cbn. rewrite D. cbn.
    unfold eventsSince. cbn. rewrite <- app_assoc, drop_app_length.
    repeat split; try done; eauto. by repeat constructor.
  - rewrite bind_run. unfold ioutil_ReadDir. io_unfold. cbn. rewrite D. cbn.
    match goal with |- context [loadOverlayFiles dir files ?m ?st] =>
      destruct (loadOverlayFiles_reads dir files m st) as (n & _ & E & _)
    end.
    rewrite E. unfold logged, eventsSince. cbn.
    rewrite <- !app_assoc, drop_app_length.
    repeat split; try done.
    repeat (apply Forall_cons; split; [done|]).
    apply Forall_forall. intros e In. apply list_elem_of_fmap in In as (f & -> & _). done.
  - unfold ret. cbn [fst snd]. rewrite eventsSince_logged.
    repeat split; try done. by repeat constructor.
Qed.

Lemma loadOverlayFiles_app dir files1 files2 :
  forall (m : gmap string Image) s,
  loadOverlayFiles dir (files1 ++ files2) m s =
    match loadOverlayFiles dir files1 m s with
    | ((m1, None), s1) => loadOverlayFiles dir files2 m1 s1
    | ((m1, Some e), s1) => ((m1, Some e), s1)
    end.
Proof.
  induction files1 as [|f rest IH]; intros m s; [reflexivity|].
  cbn [app loadOverlayFiles]. rewrite !bind_run.
  destruct (loadImage (filepath_Join dir f) s) as [[img|e] s1]; cbn [fst snd].
  - apply IH.
  - reflexivity.
Qed.

(** X14.  When the files before some file load and that file does not
    (it cannot be read or does not decode), [LoadOverlays] returns the
    error together with the overlays loaded so far, and the files after
    it are never read. *)
Theorem LoadOverlays_stops_at_bad_file
    (dir : string) (before after : list string) (file : string)
    (s s1 : Sys) (loaded : gmap string Image) (e : error) :
  fs s !! dir = Some (Directory (before ++ file :: after)) ->
  loadOverlayFiles dir before ∅ (logged s [EvStat dir; EvReadDir dir])
    = ((loaded, None), s1) ->
  (loadImage (filepath_Join dir file) s1).1 = inr e ->
  LoadOverlays dir s =
    ((loaded, Some e), logged s1 [EvReadFile (filepath_Join dir file)]).
Proof.
  intros D L B. rewrite (LoadOverlays_listing _ _ _ D), loadOverlayFiles_app, L.
  cbn [loadOverlayFiles]. rewrite bind_run. rewrite loadImage_run in *.
  cbn [fst snd] in *. by rewrite B.
Qed.

End OverlayLoadExtras.

Lemma LoadOverlays_last_file_wins_witness :
  exists data img,
    fs Scenes.sysColliding !! filepath_Join Scenes.overlayDir "Demos.jpg" = Some (File data)
    /\ @image_Decode Demo.Picture Demo.pictures data = inl img
    /\ (@LoadOverlays Demo.Picture Demo.pictures Scenes.overlayDir Scenes.sysColliding).1.1
         !! overlayName "Demos.jpg" = Some img.
Proof.
  eapply (@LoadOverlays_last_file_wins Demo.Picture Demo.pictures Scenes.overlayDir
            ["demo.png"] [] "Demos.jpg" Scenes.sysColliding).
  - reflexivity.
  - reflexivity.
  - intros f E. by apply elem_of_nil in E.
Defined.

Lemma LoadOverlays_stops_at_bad_file_witness :
  (@LoadOverlays Demo.Picture Demo.pictures Scenes.overlayDir Scenes.sysBroken).1.2
    = Some "image: unknown format".
Proof.
  erewrite (@LoadOverlays_stops_at_bad_file Demo.Picture Demo.pictures Scenes.overlayDir
              ["action.png"] ["favorite.png"] "broken.png" Scenes.sysBroken).
  - reflexivity.
  - reflexivity.
  - reflexivity.
  - reflexivity.
Defined.

(** ** More on applying overlays *)

Section OverlayApplyExtras.
Context {Image : Type} `{Imaging Image}.

Lemma setImageBytes_same game b : ImageBytes game = Some b -> setImageBytes game (Some b) = game.
Proof. destruct game. cbn. by intros ->. Qed.

Lemma overlayTags_no_match tags (overlays : gmap string Image) b :
  (forall tag, tag ∈ tags -> overlays !! normalizeName tag = None) ->
  overlayTags tags overlays b = (b, None).
Proof.
  induction tags as [|t rest IH]; intros N; [reflexivity|].
  cbn [overlayTags]. rewrite (N t) by apply list_elem_of_here.
  apply IH. intros tag E. by apply N, list_elem_of_further.
Qed.

Lemma overlayTags_undecodable tags (overlays : gmap string Image) b e :
  image_Decode b = inr e ->
  (exists tag, tag ∈ tags /\ is_Some (overlays !! normalizeName tag)) ->
  overlayTags tags overlays b = (b, Some e).
Proof.
  intros D. induction tags as [|t rest IH]; intros (tag & E & M).
  - by apply elem_of_nil in E.
  - cbn [overlayTags]. destruct (overlays !! normalizeName t) as [o|] eqn:L.
    + unfold composeOverlay. by rewrite D.
    + apply IH. apply elem_of_cons in E as [->|E]; [|eauto].
      rewrite L in M. by destruct M.
Qed.

(** X15.  When no tag of a resolved game has an overlay (in particular
    when the game has no tag), [ApplyOverlay] leaves the game as it is
    and writes its bytes once to the working path: a disk that already
    held these bytes there is unchanged. *)
Theorem ApplyOverlay_without_match
    (game : Game) (overlays : gmap string Image) (s : Sys) (b : string) :
  ImageBytes game = Some b ->
  ImagePath game <> "" ->
  (forall tag, tag ∈ Tags game -> overlays !! normalizeName tag = None) ->
  let out := ApplyOverlay game overlays s in
  out.1.1 = game
  /\ eventsSince s out.2 = [EvWriteFile (ImagePath game) b]
  /\ (fs s !! ImagePath game = Some (File b) -> out.1.2 = None /\ fs out.2 = fs s)
  /\ (fs s !! ImagePath game = None ->
      out.1.2 = None /\ fs out.2 = <[ImagePath game := File b]> (fs s)).
Proof.
  intros B P N out. subst out. rewrite ApplyOverlay_run, B.
  destruct (String.eqb_spec (ImagePath game) "") as [|_]; [done|].
  rewrite (overlayTags_no_match _ _ _ N), (setImageBytes_same _ _ B).
  destruct (fs s !! ImagePath game) as [[d|l]|] eqn:E; cbn [fst snd fs];
    rewrite ?eventsSince_app, ?eventsSince_logged.
  - split; [done|split; [done|split; [|done]]].
    intros [= ->]. split; [done|]. by apply insert_id.
  - split; [done|split; [done|split; done]].
  - split; [done|split; [done|split; done]].
Qed.

(** X16.  When the bytes of the game do not decode and some tag has an
    overlay, [ApplyOverlay] returns the error of the decoder, changes
    neither the game nor the disk, and writes nothing. *)
Theorem ApplyOverlay_undecodable
    (game : Game) (overlays : gmap string Image) (s : Sys) (b : string) (e : error) :
  ImageBytes game = Some b ->
  ImagePath game <> "" ->
  image_Decode b = inr e ->
  (exists tag, tag ∈ Tags game /\ is_Some (overlays !! normalizeName tag)) ->
  ApplyOverlay game overlays s = ((game, Some e), s).
Proof.
  intros B P D M. rewrite ApplyOverlay_run, B.
  destruct (String.eqb_spec (ImagePath game) "") as [|_]; [done|].
  by rewrite (overlayTags_undecodable _ _ _ _ D M), (setImageBytes_same _ _ B).
Qed.


End OverlayApplyExtras.

Lemma ApplyOverlay_without_match_witness :
  eventsSince Demo.emptySys
    (@ApplyOverlay Demo.Picture Demo.pictures Scenes.untagged Demo.overlays Demo.emptySys).2
    = [EvWriteFile Demo.tf2Working "BASE"].
Proof.
  apply (@ApplyOverlay_without_match Demo.Picture Demo.pictures Scenes.untagged
           Demo.overlays Demo.emptySys "BASE").
  - reflexivity.
  - discriminate.
  - intros tag E. by apply elem_of_nil in E.
Defined.

Lemma ApplyOverlay_undecodable_witness :
  @ApplyOverlay Demo.Picture Demo.pictures Scenes.undecodable Demo.overlays Demo.emptySys
    = ((Scenes.undecodable, Some "image: unknown format"), Demo.emptySys).
Proof.
  apply (@ApplyOverlay_undecodable Demo.Picture Demo.pictures Scenes.undecodable
           Demo.overlays Demo.emptySys "" "image: unknown format").
  - reflexivity.
  - discriminate.
  - reflexivity.
  - exists "Action". split; [apply list_elem_of_here|]. vm_compute. eauto.
Defined.

(** ** The profile and the games of a user *)

Section ProfileExtras.
Context `{Network}.

(** X18.  [GetProfile] makes exactly one request.  It returns a profile
    only for a response below 400 whose body was read completely and does
    not contain the not-found message of the Steam site; with an error it
    returns the empty string; every status from 400 on, 400 included, is
    an error. *)
Theorem GetProfile_result (user : User) (s : Sys) :
  let url := profilePermalink (User_SteamId64 user) in
  let out := GetProfile user s in
  out.2 = logged s [EvGet url]
  /\ (out.1.2 = None ->
      exists r, http_Get url = GetOk r /\ (StatusCode r < 400)%Z /\ BodyErr r = None
                /\ out.1.1 = Body r
                /\ strings_Contains out.1.1 steamProfileErrorMessage = false)
  /\ (is_Some out.1.2 -> out.1.1 = "")
  /\ (forall r, http_Get url = GetOk r -> (400 <= StatusCode r)%Z -> is_Some out.1.2).
Proof.
  intros url out. subst out. unfold GetProfile. io_unfold. cbn [fst snd].
  fold url. change (mkSys (fs s) (trace s ++ [EvGet url])) with (logged s [EvGet url]).
  destruct (http_Get url) as [e|r] eqn:G.
  { unfold ret. cbn. repeat split; intros; simplify_eq; eauto. }
  destruct (Z.geb_spec (StatusCode r) 400) as [L|L].
  { unfold ret. cbn. repeat split; intros; simplify_eq; eauto. }
  destruct (BodyErr r) as [e|] eqn:B.
  { unfold ret. cbn. repeat split; intros; simplify_eq; eauto; lia. }
  cbv zeta. destruct (strings_Contains (Body r) steamProfileErrorMessage) eqn:C.
  { unfold ret. cbn. repeat split; intros; simplify_eq; eauto; lia. }
  unfold ret. cbn. split; [done|]. split; [|split].
  - intros _. exists r. repeat split; try done; lia.
  - by intros [? ?].
  - intros r' [= <-] ?. lia.
Qed.

End ProfileExtras.

Section GamesExtras.
Context `{Network} `{ConfigPatterns}.

Lemma withTags_nil g : withTags g [] = g.
Proof. destruct g. unfold withTags. cbn. by rewrite app_nil_r. Qed.

Lemma withTags_withTags g a b : withTags (withTags g a) b = withTags g (a ++ b).
Proof. unfold withTags. cbn. by rewrite app_assoc. Qed.

Lemma profileGames_lookup decls id :
  fold_left addProfileGame decls ∅ !! id =
    (fun name => mkGame id name [""] "" None) <$> profileName id decls.
Proof.
  induction decls as [|d rest IH] using rev_ind; [apply lookup_empty|].
  unfold profileName in *. rewrite !fold_left_app. cbn [fold_left].
  unfold addProfileGame at 1. cbv zeta.
  destruct (String.eqb_spec d.1 id) as [->|N].
  - by rewrite lookup_insert_eq.
  - by rewrite lookup_insert_ne.
Qed.

Lemma addTags_lookup gameId tags :
  forall (m : gmap string Game) id,
  fold_left (addTag gameId) tags m !! id =
    if String.eqb gameId id then
      match m !! id with
      | Some g => Some (withTags g tags)
      | None => match tags with
                | [] => None
                | _ => Some (mkGame id "" tags "" None)
                end
      end
    else m !! id.
Proof.
  induction tags as [|t rest IH]; intros m id; cbn [fold_left].
  - destruct (String.eqb gameId id); [|done].
    destruct (m !! id) as [g|]; [|done]. by rewrite withTags_nil.
  - rewrite IH. destruct (String.eqb_spec gameId id) as [->|N].
    + unfold addTag. destruct (m !! id) as [g|] eqn:E.
      * rewrite lookup_insert_eq. fold (withTags g [t]). by rewrite withTags_withTags.
      * rewrite lookup_insert_eq. unfold withTags. cbn. by destruct rest.
    + unfold addTag. by destruct (m !! gameId); rewrite lookup_insert_ne.
Qed.

Lemma configGames_lookup entries :
  forall (m : gmap string Game) id,
  fold_left addConfigGame entries m !! id =
    match m !! id with
    | Some g => Some (withTags g (configTags id entries))
    | None => match configTags id entries with
              | [] => None
              | tags => Some (mkGame id "" tags "" None)
              end
    end.
Proof.
  induction entries as [|e rest IH]; intros m id; cbn [fold_left configTags flat_map].
  - destruct (m !! id) as [g|]; [|done]. by rewrite withTags_nil.
  - rewrite IH. unfold addConfigGame at 1. cbv zeta. rewrite addTags_lookup.
    fold (configTags id rest).
    destruct (String.eqb e.1 id).
    + destruct (m !! id) as [g|].
      * by rewrite withTags_withTags.
      * destruct (tagsPattern_FindAll e.2) as [|t ts]; [done|].
        unfold withTags. by cbn.
    + done.
Qed.

Lemma GetProfile_run user s :
  GetProfile user s =
    ((GetProfile user s).1, logged s [EvGet (profilePermalink (User_SteamId64 user))]).
Proof.
  unfold GetProfile. io_unfold. cbn [fst snd].
  change (mkSys (fs s) (trace s ++ [EvGet (profilePermalink (User_SteamId64 user))]))
    with (logged s [EvGet (profilePermalink (User_SteamId64 user))]).
  destruct (http_Get _) as [e|r]; [reflexivity|].
  destruct (StatusCode r >=? 400)%Z; [reflexivity|].
  destruct (BodyErr r); [reflexivity|].
  cbv zeta. destruct (strings_Contains _ _); reflexivity.
Qed.

Lemma GetGames_map (user : User) (s s' : Sys)
    (games : gmap string Game) (err : option error) :
  GetGames user s = ((Some games, err), s') ->
  exists profile,
    (GetProfile user s).1 = (profile, None)
    /\ fs s' = fs s
    /\ (err = None \/ exists l, fs s !! sharedConfFileOf user = Some (Directory l))
    /\ forall id,
         games !! id =
           match profileName id (profileGamePattern_FindAll profile) with
           | Some name =>
               Some (mkGame id name ("" :: configTags id (configEntries user s)) "" None)
           | None =>
               match configTags id (configEntries user s) with
               | [] => None
               | tags => Some (mkGame id "" tags "" None)
               end
           end.
Proof.
  unfold GetGames. rewrite bind_run, GetProfile_run. cbn [fst snd].
  destruct (GetProfile user s).1 as [profile [e|]] eqn:P; cbn [isNil negb]; [done|].
  rewrite bind_run, os_Stat_run. cbn [fst snd]. unfold logged; cbn [fs trace].
  unfold configEntries.
  destruct (fs s !! sharedConfFileOf user) as [n|] eqn:F; cbn [isNil negb].
  - rewrite bind_run, ioutil_ReadFile_run. cbn [fst snd]. unfold logged; cbn [fs trace].
    rewrite F. destruct n as [data|l]; cbn [sliceBytes]; intros [= <- <- <-].
    all: exists profile; split; [done|]; split; [done|]; split; [eauto|].
    all: intros id; rewrite configGames_lookup, profileGames_lookup.
    all: by destruct (profileName id _).
  - intros [= <- <- <-]. exists profile. split; [done|]. split; [done|].
    split; [by left|]. intros id. rewrite profileGames_lookup.
    by destruct (profileName id _).
Qed.


(** X20.  Every game of the map [GetGames] returns is stored under its
    own id, has no image path and no image bytes, and has at least one
    tag; a game with a name has the empty tag first. *)
Theorem GetGames_games_are_fresh (user : User) (s s' : Sys)
    (games : gmap string Game) (err : option error) (id : string) (game : Game) :
  GetGames user s = ((Some games, err), s') ->
  games !! id = Some game ->
  Id game = id /\ ImagePath game = "" /\ ImageBytes game = None /\ Tags game <> []
  /\ (Name game <> "" -> head (Tags game) = Some "").
Proof.
  intros G L. destruct (GetGames_map _ _ _ _ _ G) as (profile & _ & _ & _ & C).
  rewrite C in L. destruct (profileName id _) as [name|].
  - by injection L as <-.
  - destruct (configTags id _) as [|t ts]; [done|]. by injection L as <-.
Qed.

(** X21.  When the profile cannot be fetched, [GetGames] returns the nil
    map and the error of [GetProfile] after that one request, without
    looking at the local file. *)
Theorem GetGames_without_profile (user : User) (s : Sys) (e : error) :
  (GetProfile user s).1.2 = Some e ->
  GetGames user s =
    ((None, Some e), logged s [EvGet (profilePermalink (User_SteamId64 user))]).
Proof.
  intros P. unfold GetGames. rewrite bind_run, GetProfile_run. cbn [fst snd].
  destruct (GetProfile user s).1 as [profile err]. cbn in P. by subst err.
Qed.

End GamesExtras.


Lemma GetGames_games_are_fresh_witness :
  ImagePath (mkGame "440" "Team Fortress 2" [""; "Action"; "Favorite"] "" None) = ""
  /\ head (Tags (mkGame "440" "Team Fortress 2" [""; "Action"; "Favorite"] "" None))
     = Some "".
Proof.
  destruct (@GetGames_games_are_fresh Scenes.netProfile Scenes.patterns Demo.alice
              Scenes.sysConfig
              (@GetGames Scenes.netProfile Scenes.patterns Demo.alice Scenes.sysConfig).2
              Scenes.aliceGames None "440"
              (mkGame "440" "Team Fortress 2" [""; "Action"; "Favorite"] "" None))
    as (_ & P & _ & _ & T).
  - vm_compute. reflexivity.
  - vm_compute. reflexivity.
  - split; [exact P|]. apply T. discriminate.
Defined.

Lemma GetGames_without_profile_witness :
  (@GetGames Scenes.netProfileDown Scenes.patterns Demo.alice Scenes.sysConfig).1.1 = None.
Proof.
  rewrite (@GetGames_without_profile Scenes.netProfileDown Scenes.patterns Demo.alice
             Scenes.sysConfig
             "Get http://steamcommunity.com/profiles/76561197960265729/games?tab=all: dial tcp: lookup failed: no such host").
  - reflexivity.
  - reflexivity.
Defined.

(** ** The installation directory *)

Section InstallationExtras.
Context `{Platform}.

(** X22.  [GetSteamInstallation] only stats paths and leaves the disk as
    it is; a directory it returns exists, and with an error it returns
    the empty path.  With exactly one argument on the command line only
    that path is looked at: it is returned when it exists and is an error
    otherwise, with no automatic detection. *)
Theorem GetSteamInstallation_result (s : Sys) :
  let out := GetSteamInstallation s in
  fs out.2 = fs s
  /\ Forall (fun e => match e with EvStat _ => True | _ => False end) (eventsSince s out.2)
  /\ (out.1.2 = None -> is_Some (fs s !! out.1.1))
  /\ (is_Some out.1.2 -> out.1.1 = "")
  /\ (forall program argDir,
        os_Args = [program; argDir] ->
        eventsSince s out.2 = [EvStat argDir]
        /\ (is_Some (fs s !! argDir) -> out.1 = (argDir, None))
        /\ (fs s !! argDir = None -> is_Some out.1.2)).
Proof.
  intros out. subst out. unfold GetSteamInstallation, windowsInstallation.
  assert (forall l, drop (length (trace s)) (trace s ++ l) = l) as Dr
    by (intros; apply drop_app_length).
  assert (forall (a b : list Event) c, (a ++ b) ++ c = a ++ b ++ c) as As
    by (intros; by rewrite <- app_assoc).
  destruct os_Args as [|program [|argDir [|more rest]]] eqn:Args.
  3: { rewrite bind_run, os_Stat_run. cbn [fst snd].
       destruct (fs s !! argDir) as [n|] eqn:E; cbn [isNil]; unfold ret, logged, eventsSince;
         cbn [fst snd fs trace]; rewrite Dr.
       - split; [done|]. split; [by repeat constructor|]. split; [by rewrite E|].
         split; [by intros [? ?]|]. intros p a [= <- <-]. rewrite E. by eauto.
       - split; [done|]. split; [by repeat constructor|]. split; [done|].
         split; [done|]. intros p a [= <- <-]. rewrite E.
         split; [done|]. split; [by intros [? ?]|eauto]. }
  all: destruct user_Current_HomeDir as [homeDir|e]; cbv zeta.
  all: repeat (rewrite bind_run, os_Stat_run; cbn [fst snd];
               unfold logged; cbn [fs trace];
               match goal with |- context [isNil (match fs ?st !! ?p with _ => _ end)] =>
                 let E := fresh "E" in destruct (fs st !! p) eqn:E; cbn [isNil]
               end).
  all: unfold ret, eventsSince; cbn [fst snd fs trace]; rewrite ?As, Dr.
  all: split; [done|]; split; [by repeat constructor|].
  all: split; [first [done | intros _; match goal with E : _ = Some _ |- _ => rewrite E; by eauto end]|].
  all: split; [first [done | by intros [? ?]]|].
  all: intros p a; discriminate.
Qed.

End InstallationExtras.
